(** * easy-local-rag: the mail collector [collect_emails.py]

    A shallow embedding of the text pipeline of [collect_emails.py]
    (normalisation by regular-expression substitution, sentence chunking,
    the vault writer, body extraction, attachment saving and the command
    line driver), with the properties of the specification stated and
    settled against it.

    Python strings are sequences of Unicode code points; the regular
    expressions of the program are kept as syntax and run by a
    backtracking matcher with Python's greedy, leftmost-first semantics. *)

From Stdlib Require Import ZArith Ascii String DecimalString Lia.
From stdpp Require Import gmap strings list.

Local Open Scope N_scope.

(** ** Python strings *)

(** A character is a code point; a [str] is a list of them. *)
Abbreviation char := N (only parsing).
Abbreviation str := (list N) (only parsing).

(** A literal of the source, character by character. *)
Definition py (s : string) : str :=
  map N_of_ascii (list_ascii_of_string s).

(** [str.isspace] for one character, CPython's [_PyUnicode_IsWhitespace];
    the regular expression class [\s] on a [str] pattern tests the same. *)
Definition is_space (c : char) : bool :=
  ((9 <=? c) && (c <=? 13)) || ((28 <=? c) && (c <=? 32))
  || (c =? 133) || (c =? 160) || (c =? 5760)
  || ((8192 <=? c) && (c <=? 8202))
  || (c =? 8232) || (c =? 8233) || (c =? 8239) || (c =? 8287) || (c =? 12288).

Definition non_space (c : char) : bool := negb (is_space c).

Fixpoint take_while (p : char -> bool) (s : str) : str :=
  match s with
  | c :: t => if p c then c :: take_while p t else []
  | [] => []
  end.

Fixpoint drop_while (p : char -> bool) (s : str) : str :=
  match s with
  | c :: t => if p c then drop_while p t else s
  | [] => []
  end.

(** [s.strip()] with no argument. *)
Definition lstrip (s : str) : str := drop_while is_space s.
Definition rstrip (s : str) : str := rev (drop_while is_space (rev s)).
Definition strip (s : str) : str := lstrip (rstrip s).

(** [starts_with l s]: [s.startswith(l)]. *)
Fixpoint starts_with (l s : str) : bool :=
  match l, s with
  | [], _ => true
  | c :: l', d :: s' => (c =? d) && starts_with l' s'
  | _ :: _, [] => false
  end.

(** [len(s)] as a Python integer. *)
Definition len (s : str) : Z := Z.of_nat (length s).

(** [s.encode('ascii', 'ignore').decode('ascii')]: the characters that
    ASCII cannot encode are dropped, the others are kept. *)
Definition is_ascii (c : char) : bool := c <? 128.
Definition encode_ascii_ignore (s : str) : str := List.filter is_ascii s.

(** ** Regular expressions *)

(** The fragment of [re] syntax the program uses. *)
Inductive regex : Type :=
| Eps                                   (* the empty pattern *)
| Class (p : char -> bool)              (* one character: a literal, [...], \s, \S *)
| Cat (r1 r2 : regex)                   (* r1 r2 *)
| Alt (r1 r2 : regex)                   (* r1|r2 *)
| AtLeast (lo : nat) (r : regex)        (* greedy r{lo,}: r* is lo = 0, r+ is lo = 1 *)
| Behind (p : char -> bool).            (* (?<=[...]) *)

Definition Opt (r : regex) : regex := Alt r Eps.          (* greedy r? *)
Definition Chr (c : char) : regex := Class (N.eqb c).

Fixpoint Lit (l : str) : regex :=
  match l with
  | [] => Eps
  | c :: t => Cat (Chr c) (Lit t)
  end.

(** The loop of a greedy repetition [r{lo,}]: one more iteration of the
    body is tried first, and ending the repetition (allowed from [lo]
    iterations on) is the fallback.  An iteration that consumes nothing
    is refused, which also bounds the loop by the length of the input. *)
Fixpoint rep_loop
    (body : option char -> str -> (option char -> str -> option str) -> option str)
    (lo : nat) (k : option char -> str -> option str)
    (fuel count : nat) (b : option char) (s : str) : option str :=
  match fuel with
  | O => None
  | S f =>
      match body b s (fun b' s' =>
              if (length s' <? length s)%nat
              then rep_loop body lo k f (S count) b' s' else None) with
      | Some x => Some x
      | None => if (lo <=? count)%nat then k b s else None
      end
  end.

(** The backtracking matcher.  [exec r b s k] matches [r] at a position
    whose preceding character is [b] and whose remaining input is [s], then
    runs the continuation [k] on what is left; alternatives are tried in
    priority order (the left branch first). *)
Fixpoint exec (r : regex) (b : option char) (s : str)
    (k : option char -> str -> option str) : option str :=
  match r with
  | Eps => k b s
  | Class p =>
      match s with
      | c :: t => if p c then k (Some c) t else None
      | [] => None
      end
  | Cat r1 r2 => exec r1 b s (fun b' s' => exec r2 b' s' k)
  | Alt r1 r2 =>
      match exec r1 b s k with
      | Some x => Some x
      | None => exec r2 b s k
      end
  | Behind p =>
      match b with
      | Some c => if p c then k b s else None
      | None => None
      end
  | AtLeast lo r' => rep_loop (exec r') lo k (S (length s)) O b s
  end.

(** What is left of [s] after the match of [r] found at its start. *)
Definition match_at (r : regex) (b : option char) (s : str) : option str :=
  exec r b s (fun _ s' => Some s').

(** The number of characters of that match. *)
Definition match_len (r : regex) (b : option char) (s : str) : option nat :=
  match match_at r b s with
  | Some rest => Some (length s - length rest)%nat
  | None => None
  end.

(** A matcher at a position: the length of the match there, if any. *)
Abbreviation matcher := (option N -> list N -> option nat) (only parsing).

(** The scan of [re.sub] and [re.split]: left to right, the leftmost match
    wins and the scan resumes after it.  [skip] counts the characters of
    the current match still to pass.  None of the program's patterns
    matches the empty string, and a position without a non-empty match is
    copied. *)
Fixpoint sub_scan (m : matcher) (repl : str) (skip : nat)
    (b : option char) (s : str) : str :=
  match s with
  | [] => []
  | c :: t =>
      match skip with
      | S n => sub_scan m repl n (Some c) t
      | O =>
          match m b s with
          | Some (S n) => repl ++ sub_scan m repl n (Some c) t
          | _ => c :: sub_scan m repl O (Some c) t
          end
      end
  end.

(** [re.sub(r, repl, s)] for a replacement without group references. *)
Definition re_sub (r : regex) (repl : str) (s : str) : str :=
  sub_scan (match_len r) repl O None s.

(** One more character at the front of the first piece. *)
Definition push_head (c : char) (l : list str) : list str :=
  match l with
  | h :: rest => (c :: h) :: rest
  | [] => [[c]]
  end.

(** The pieces between the matches; a match ends the piece before it, and
    the input ends the last piece (which is empty after a final match). *)
Fixpoint split_scan (m : matcher) (skip : nat) (b : option char) (s : str)
    : list str :=
  match s with
  | [] => [[]]
  | c :: t =>
      match skip with
      | S n => split_scan m n (Some c) t
      | O =>
          match m b s with
          | Some (S n) => [] :: split_scan m n (Some c) t
          | _ => push_head c (split_scan m O (Some c) t)
          end
      end
  end.

(** [re.split(r, s)] for a pattern without capture groups. *)
Definition re_split (r : regex) (s : str) : list str :=
  split_scan (match_len r) O None s.

(** ** The patterns of [chunk_text] *)

Definition ws : regex := Class is_space.                    (* \s *)
Definition nws : regex := Class non_space.                  (* \S *)

(** The pattern [\s* (?: > \s* ){2,}] of line 18 (written here with blanks). *)
Definition re_quote : regex :=
  Cat (AtLeast 0 ws) (AtLeast 2 (Cat (Chr 62) (AtLeast 0 ws))).
(** [-{3,}] *)
Definition re_dashes : regex := AtLeast 3 (Chr 45).
(** [_{3,}] *)
Definition re_underscores : regex := AtLeast 3 (Chr 95).
(** [\s{2,}] *)
Definition re_spaces2 : regex := AtLeast 2 ws.
(** [https?://\S+|www\.\S+] *)
Definition re_url : regex :=
  Alt (Cat (Lit (py "http")) (Cat (Opt (Chr 115))
         (Cat (Lit (py "://")) (AtLeast 1 nws))))
      (Cat (Lit (py "www")) (Cat (Chr 46) (AtLeast 1 nws))).
(** [\s+] *)
Definition re_spaces1 : regex := AtLeast 1 ws.
(** [(?<=[.!?]) +] *)
Definition is_terminator (c : char) : bool :=
  (c =? 46) || (c =? 33) || (c =? 63).
Definition re_sentence_gap : regex :=
  Cat (Behind is_terminator) (AtLeast 1 (Chr 32)).

(** ** [chunk_text] *)

(** Lines 15 to 29: the substitutions applied before the text is split. *)
Definition normalize (text : str) : str :=
  let text := encode_ascii_ignore text in
  let text := re_sub re_quote (py " ") text in
  let text := re_sub re_dashes (py " ") text in
  let text := re_sub re_underscores (py " ") text in
  let text := re_sub re_spaces2 (py " ") text in
  let text := re_sub re_url [] text in
  strip (re_sub re_spaces1 (py " ") text).

(** Line 32. *)
Definition sentences_of (text : str) : list str :=
  re_split re_sentence_gap text.

(** Lines 36 to 41: the loop, on the pair [(chunks, current_chunk)]. *)
Fixpoint chunk_loop (max_length : Z) (sentences : list str)
    (chunks : list str) (current_chunk : str) : list str * str :=
  match sentences with
  | [] => (chunks, current_chunk)
  | sentence :: rest =>
      if (len current_chunk + len sentence + 1 <? max_length)%Z
      then chunk_loop max_length rest chunks
             (current_chunk ++ strip (sentence ++ py " "))
      else chunk_loop max_length rest (chunks ++ [current_chunk])
             (sentence ++ py " ")
  end.

(** Lines 32 to 45: the chunking of an already normalised text. *)
Definition chunk (text : str) (max_length : Z) : list str :=
  let '(chunks, current_chunk) :=
    chunk_loop max_length (sentences_of text) [] [] in
  match current_chunk with
  | [] => chunks
  | _ => chunks ++ [current_chunk]
  end.

Definition chunk_text (text : str) (max_length : Z) : list str :=
  chunk (normalize text) max_length.

(** ** The world of the program *)

(** The exceptions the modelled code can raise. *)
Inductive exn : Type :=
| UnicodeDecodeError          (* bytes.decode, strict, on undecodable bytes *)
| LookupError                 (* bytes.decode on an unknown encoding *)
| TypeError                   (* open(None), f.write(None) *)
| AttributeError              (* None.decode *)
| IMAP4Error.                 (* imaplib.IMAP4.error, a refused login *)

(** What the program sends to the mail server. *)
Inductive net_event : Type :=
| NetConnect (host : str)
| NetLogin (user password : option str)
| NetSelect (mailbox : str)
| NetSearch (criteria : str)
| NetFetch (num : str)
| NetLogout.

(** The environment variables, the working directory, the files (a text
    file by its characters, a binary file by its bytes), what was printed
    and what was sent over the network.  Opening a file always succeeds:
    failures of the operating system are outside the model. *)
Record world : Type := World {
  environ : gmap (list N) (list N);
  cwd : list N;
  files : gmap (list N) (list N);
  stdout : list (list N);
  network : list net_event
}.

Definition set_files (f : gmap (list N) (list N)) (w : world) : world :=
  World (environ w) (cwd w) f (stdout w) (network w).
Definition set_stdout (o : list (list N)) (w : world) : world :=
  World (environ w) (cwd w) (files w) o (network w).
Definition set_network (n : list net_event) (w : world) : world :=
  World (environ w) (cwd w) (files w) (stdout w) n.

(** A computation returns a value or raises, and changes the world. *)
Definition result (A : Type) : Type := (exn + A)%type.
Definition M (A : Type) : Type := world -> result A * world.

Definition ret {A : Type} (a : A) : M A := fun w => (inr a, w).
Definition raise {A : Type} (e : exn) : M A := fun w => (inl e, w).
Definition bind {A B : Type} (m : M A) (k : A -> M B) : M B :=
  fun w =>
    match m w with
    | (inr a, w') => k a w'
    | (inl e, w') => (inl e, w')
    end.
Definition lift {A : Type} (r : result A) : M A := fun w => (r, w).

Notation "x <- m ;; k" := (bind m (fun x => k))
  (at level 100, m at next level, right associativity).
Notation "m ;; k" := (bind m (fun _ => k))
  (at level 100, right associativity).

(** [print(line)] *)
Definition print (line : str) : M unit :=
  fun w => (inr tt, set_stdout (stdout w ++ [line]) w).
(** [os.getenv(name)] *)
Definition getenv (name : str) : M (option str) :=
  fun w => (inr (environ w !! name), w).
Definition getcwd : M str := fun w => (inr (cwd w), w).
Definition send (e : net_event) : M unit :=
  fun w => (inr tt, set_network (network w ++ [e]) w).
(** [f.write(data)] on a file opened for appending or writing. *)
Definition file_write (path data : str) : M unit :=
  fun w =>
    (inr tt,
     set_files (<[path := default [] (files w !! path) ++ data]> (files w)) w).
(** [open(path, "a")]: the file is created when it does not exist. *)
Definition open_append (path : str) : M unit := file_write path [].
(** [open(path, "wb")]: the file is created or emptied. *)
Definition open_truncate (path : str) : M unit :=
  fun w => (inr tt, set_files (<[path := []]> (files w)) w).

(** The truth value of an optional string: [None] and the empty string are
    false. *)
Definition truthy (s : option str) : bool :=
  match s with
  | Some (_ :: _) => true
  | _ => false
  end.

Fixpoint str_eqb (a b : str) : bool :=
  match a, b with
  | [], [] => true
  | c :: a', d :: b' => (c =? d) && str_eqb a' b'
  | _, _ => false
  end.

Definition newline : str := [10].
Definition dquote : str := [34].
Definition str_of_nat (n : nat) : str :=
  py (NilEmpty.string_of_uint (Nat.to_uint n)).

(** ** [save_chunks_to_vault] *)

(** Lines 50 and 51. *)
Fixpoint write_chunks (vault_path : str) (chunks : list str) : M unit :=
  match chunks with
  | [] => ret tt
  | chunk :: rest =>
      file_write vault_path (strip chunk ++ newline) ;;
      write_chunks vault_path rest
  end.

Definition save_chunks_to_vault (chunks : list str) : M unit :=
  vault_path <- getenv (py "VAULT_FILENAME") ;;
  match vault_path with
  | None => raise TypeError
  | Some path => open_append path ;; write_chunks path chunks
  end.

(** ** Messages *)

(** What the program reads of a part: its content type, the charset
    parameter, the [Content-Disposition] header and [get_filename()]. *)
Record headers : Type := Headers {
  maintype : str;
  subtype : str;
  charset : option str;
  content_disposition : option str;
  filename : option str
}.

(** A part carries a payload (here after its transfer decoding) or
    sub-parts. *)
#[warnings="-register-all"] Inductive message : Type :=
| Single (h : headers) (payload : list N)
| Multi (h : headers) (parts : list message).

Definition header_of (m : message) : headers :=
  match m with
  | Single h _ => h
  | Multi h _ => h
  end.

Definition is_multipart (m : message) : bool :=
  match m with
  | Single _ _ => false
  | Multi _ _ => true
  end.

Definition get_content_type (m : message) : str :=
  maintype (header_of m) ++ py "/" ++ subtype (header_of m).
Definition get_content_maintype (m : message) : str := maintype (header_of m).
Definition get_content_charset (m : message) (failobj : str) : str :=
  default failobj (charset (header_of m)).
(** [get_payload(decode=True)]: [None] for a part with sub-parts. *)
Definition get_payload (m : message) : option (list N) :=
  match m with
  | Single _ payload => Some payload
  | Multi _ _ => None
  end.

(** [msg.walk()]: the part itself, then its sub-parts, depth first. *)
Fixpoint walk (m : message) : list message :=
  m :: match m with
       | Single _ _ => []
       | Multi _ parts => flat_map walk parts
       end.

(** A codec of Python's registry, by its two error handlers. *)
Record codec : Type := Codec {
  decode_strict : list N -> option (list N);
  decode_ignore : list N -> list N
}.

Inductive errors_mode : Type := Strict | Ignore.

(** [posixpath.join(a, b)] *)
Definition head_is_slash (s : str) : bool := starts_with (py "/") s.
Definition last_is_slash (s : str) : bool := starts_with (py "/") (rev s).

Definition os_path_join (a b : str) : str :=
  if head_is_slash b then b
  else if (match a with [] => true | _ => false end) || last_is_slash a
       then a ++ b
       else a ++ py "/" ++ b.

(** The parsed command line. *)
Record args : Type := Args {
  keyword : str;
  startdate : option str;
  enddate : option str
}.

(** The answers of the mail server. *)
Record imap_server : Type := ImapServer {
  imap_login_ok : option str -> option str -> bool;
  imap_search : str -> bool * list (list N);
  imap_fetch : str -> bool * list N
}.

Section Program.

(** The libraries the program calls, outside this repository. *)
Variable codecs : list N -> option codec.          (* the codec registry *)
Variable get_text : list N -> list N.              (* BeautifulSoup(..).get_text() *)
Variable parsebytes : list N -> message.           (* BytesParser(policy.default) *)
Variable message_from_bytes : list N -> message.
Variable date : Type.
Variable strptime : list N -> list N + date.       (* "%d.%m.%Y"; the error text *)
Variable strftime : date -> list N.                (* "%d-%b-%Y" *)
Variable server : imap_server.

(** [data.decode(encoding, errors=...)] *)
Definition bytes_decode (encoding : str) (errors : errors_mode)
    (data : list N) : result str :=
  match codecs encoding with
  | None => inl LookupError
  | Some c =>
      match errors with
      | Ignore => inr (decode_ignore c data)
      | Strict =>
          match decode_strict c data with
          | Some text => inr text
          | None => inl UnicodeDecodeError
          end
      end
  end.

(** [part.get_payload(decode=True).decode(part.get_content_charset('utf-8'), ...)] *)
Definition decode_part (part : message) (errors : errors_mode) : result str :=
  match get_payload part with
  | None => inl AttributeError
  | Some data =>
      bytes_decode (get_content_charset part (py "utf-8")) errors data
  end.

(** [get_text_from_html] *)
Definition get_text_from_html (html_content : str) : str :=
  get_text html_content.

(** Lines 61 to 66: the loop over [msg.walk()]. *)
Fixpoint collect_text (parts : list message) (text_content : str)
    : result str :=
  match parts with
  | [] => inr text_content
  | part :: rest =>
      if str_eqb (get_content_type part) (py "text/plain") then
        match decode_part part Ignore with
        | inl e => inl e
        | inr text => collect_text rest (text_content ++ text)
        end
      else if str_eqb (get_content_type part) (py "text/html") then
        match decode_part part Ignore with
        | inl e => inl e
        | inr html_content =>
            collect_text rest (text_content ++ get_text_from_html html_content)
        end
      else collect_text rest text_content
  end.

(** Lines 59 to 71. *)
Definition text_content_of (msg : message) : result str :=
  if is_multipart msg then collect_text (walk msg) []
  else if str_eqb (get_content_type msg) (py "text/plain") then
    decode_part msg Strict
  else if str_eqb (get_content_type msg) (py "text/html") then
    match decode_part msg Strict with
    | inl e => inl e
    | inr html_content => inr (get_text_from_html html_content)
    end
  else inr [].

Definition save_plain_text_content (email_bytes : list N) (email_id : str)
    : M str :=
  let msg := parsebytes email_bytes in
  text_content <- lift (text_content_of msg) ;;
  let chunks := chunk_text text_content 1000 in
  save_chunks_to_vault chunks ;;
  ret text_content.

(** ** [save_attachment] *)

Definition save_attachment (part : message) (email_id folder_path : str)
    : M unit :=
  if str_eqb (get_content_maintype part) (py "multipart") then ret tt
  else
    match content_disposition (header_of part) with
    | None => ret tt
    | Some _ =>
        match filename (header_of part) with
        | Some (c :: name) =>
            let filepath :=
              os_path_join folder_path (email_id ++ py "_" ++ c :: name) in
            open_truncate filepath ;;
            match get_payload part with
            | Some data => file_write filepath data
            | None => raise TypeError
            end ;;
            print (py "Saved attachment to " ++ filepath)
        | _ => ret tt
        end
    end.

(** ** [search_and_process_emails] *)

Fixpoint save_attachments (parts : list message) (email_id folder : str)
    : M unit :=
  match parts with
  | [] => ret tt
  | part :: rest =>
      save_attachment part email_id folder ;;
      save_attachments rest email_id folder
  end.

(** Lines 105 to 117, for one message number. *)
Definition process_email (email_source num : str) : M unit :=
  send (NetFetch num) ;;
  let '(ok, raw) := imap_fetch server num in
  if ok then
    let email_id := num in
    print (py "Downloading and processing email ID: " ++ email_id
           ++ py " from " ++ email_source) ;;
    let msg := message_from_bytes raw in
    save_plain_text_content raw email_id ;;
    here <- getcwd ;;
    let attachment_folder := os_path_join here (py "attachments") in
    save_attachments (walk msg) email_id attachment_folder
  else
    print (py "Failed to fetch email ID: " ++ num ++ py " from " ++ email_source).

Fixpoint process_emails (email_source : str) (email_ids : list str) : M unit :=
  match email_ids with
  | [] => ret tt
  | num :: rest =>
      process_email email_source num ;; process_emails email_source rest
  end.

Definition search_and_process_emails (email_source search_keyword : str)
    (start_date end_date : option str) : M unit :=
  let search_criteria := py "ALL" in
  let search_criteria :=
    if truthy start_date && truthy end_date then
      py "(SINCE " ++ dquote ++ default [] start_date ++ dquote
      ++ py " BEFORE " ++ dquote ++ default [] end_date ++ dquote ++ py ")"
    else search_criteria in
  let search_criteria :=
    match search_keyword with
    | [] => search_criteria
    | _ => search_criteria ++ py " BODY " ++ dquote ++ search_keyword ++ dquote
    end in
  print (py "Using search criteria for " ++ email_source ++ py ": "
         ++ search_criteria) ;;
  send (NetSearch search_criteria) ;;
  let '(ok, email_ids) := imap_search server search_criteria in
  if ok then
    print (py "Found " ++ str_of_nat (length email_ids)
           ++ py " emails matching criteria in " ++ email_source ++ py ".") ;;
    process_emails email_source email_ids
  else
    print (py "Failed to find emails with given criteria in " ++ email_source
           ++ py ". No emails found.").

(** ** [check_env] and [main] *)

(** [check_env] returns [True], [False], or nothing ([None]) on its third
    branch. *)
Definition check_env : M (option bool) :=
  vault <- getenv (py "VAULT_FILENAME") ;;
  if negb (truthy vault) then
    print (py "The [VAULT_FILENAME] variable is not set.") ;; ret (Some false)
  else
    user <- getenv (py "GMAIL_USERNAME") ;;
    if negb (truthy user) then
      print (py "The [GMAIL_USERNAME] variable is not set.") ;;
      ret (Some false)
    else
      password <- getenv (py "GMAIL_PASSWORD") ;;
      if negb (truthy password) then
        print (py "The [GMAIL_PASSWORD] variable is not set.") ;; ret None
      else ret (Some true).

(** Lines 156 to 168. *)
Definition connect_and_process (a : args) (start_date end_date : option str)
    : M unit :=
  gmail_username <- getenv (py "GMAIL_USERNAME") ;;
  gmail_password <- getenv (py "GMAIL_PASSWORD") ;;
  send (NetConnect (py "imap.gmail.com")) ;;
  send (NetLogin gmail_username gmail_password) ;;
  (if imap_login_ok server gmail_username gmail_password
   then ret tt else raise IMAP4Error) ;;
  send (NetSelect (py "inbox")) ;;
  search_and_process_emails (py "Gmail") (keyword a) start_date end_date ;;
  send NetLogout.

Definition date_error : str :=
  py "Error: Date format is incorrect. Please use DD.MM.YYYY format. Details: ".
Definition both_dates_error : str :=
  py "Both start date and end date must be provided together.".

(** [main], from the parsed arguments on. *)
Definition main (a : args) : M unit :=
  ready <- check_env ;;
  match ready with
  | Some true =>
      if truthy (startdate a) && truthy (enddate a) then
        match strptime (default [] (startdate a)) with
        | inl e => print (date_error ++ e)
        | inr d1 =>
            match strptime (default [] (enddate a)) with
            | inl e => print (date_error ++ e)
            | inr d2 =>
                connect_and_process a (Some (strftime d1)) (Some (strftime d2))
            end
        end
      else if truthy (startdate a) || truthy (enddate a) then
        print both_dates_error
      else connect_and_process a None None
  | _ => print (py "Ending early")
  end.

End Program.

(** The three variables [check_env] asks for are set and not empty. *)
Definition env_ready (w : world) : bool :=
  truthy (environ w !! py "VAULT_FILENAME")
  && truthy (environ w !! py "GMAIL_USERNAME")
  && truthy (environ w !! py "GMAIL_PASSWORD").

(** The lines of a text file. *)
Fixpoint lines (s : str) : list str :=
  match s with
  | [] => []
  | c :: t =>
      if c =? 10 then [] :: lines t
      else match lines t with
           | l :: rest => (c :: l) :: rest
           | [] => [[c]]
           end
  end.

(** What [save_chunks_to_vault] writes for a chunk. *)
Definition vault_line (chunk : str) : str := strip chunk ++ newline.

(** ** Sample inputs *)

(** The [ascii] codec: strict decoding fails on a byte above 127, which the
    [ignore] handler drops. *)
Definition ascii_codec : codec :=
  Codec (fun data => if forallb is_ascii data then Some data else None)
        (fun data => List.filter is_ascii data).

Definition sample_codecs (name : str) : option codec :=
  if str_eqb name (py "us-ascii") || str_eqb name (py "ascii")
  then Some ascii_codec else None.

(** A [text/plain; charset=us-ascii] body with a byte that ASCII does not
    have: [b'Caf\xe9']. *)
Definition accented_body : message :=
  Single (Headers (py "text") (py "plain") (Some (py "us-ascii")) None None)
         [67; 97; 102; 233].

Definition accented_in_multipart : message :=
  Multi (Headers (py "multipart") (py "mixed") None None None)
        [accented_body].

(** An attachment, and an inline image that has a name (from its content
    type) but no [Content-Disposition] header. *)
Definition report_part : message :=
  Single (Headers (py "application") (py "pdf") None
            (Some (py "attachment; filename=report.pdf"))
            (Some (py "report.pdf")))
         [37; 80; 68; 70].

Definition inline_named_part : message :=
  Single (Headers (py "image") (py "png") None None (Some (py "logo.png")))
         [137; 80; 78; 71].

(** A server that accepts the login and finds no message. *)
Definition quiet_server : imap_server :=
  ImapServer (fun _ _ => true) (fun _ => (true, [])) (fun _ => (false, [])).

Definition ready_world : world :=
  World (<[py "VAULT_FILENAME" := py "vault.txt"]>
          (<[py "GMAIL_USERNAME" := py "user"]>
            (<[py "GMAIL_PASSWORD" := py "secret"]> ∅)))
        (py "/home/user") ∅ [] [].

(** [main] with the sample libraries: no codec but ASCII, a date parser
    that rejects everything. *)
Definition sample_main (a : args) : M unit :=
  main sample_codecs (fun html => html) (fun _ => accented_body)
       (fun _ => accented_body) unit (fun _ => inl (py "bad date"))
       (fun _ => []) quiet_server a.

(** The scenario of the specification: a quoted reply and a separator. *)
Definition scenario : str :=
  py "Hello world. " ++ repeat 62 5 ++ py " This is --- a test.".

(** ** Auxiliary definitions for the proofs *)

(** The character before the position reached after reading [u]. *)
Fixpoint last_of (b : option char) (u : str) : option char :=
  match u with
  | [] => b
  | c :: t => last_of (Some c) t
  end.

(** Greedy repetition of a single character class, closed form of
    [rep_loop] on the body [Class p]. *)
Fixpoint rep_class (p : char -> bool) (lo : nat)
    (k : option char -> str -> option str)
    (count : nat) (b : option char) (s : str) : option str :=
  let stop := if (lo <=? count)%nat then k b s else None in
  match s with
  | c :: t =>
      if p c then
        match rep_class p lo k (S count) (Some c) t with
        | Some x => Some x
        | None => stop
        end
      else stop
  | [] => stop
  end.

(** The length of the longest prefix of [s] made of [p] characters. *)
Definition run_len (p : char -> bool) (s : str) : nat :=
  length (take_while p s).

(** The quote pattern of line 18 in closed form: the longest prefix made
    of ['>'] and white space, when it holds at least two ['>']. *)
Definition gt_or_ws (c : char) : bool := (62 =? c) || is_space c.

Definition count_gt (u : str) : nat := length (List.filter (N.eqb 62) u).

Definition quote_len (s : str) : option nat :=
  let u := take_while gt_or_ws s in
  if (2 <=? count_gt u)%nat then Some (length u) else None.

(** The group [> \s*] the quote pattern repeats. *)
Definition group_quote : regex := Cat (Chr 62) (AtLeast 0 ws).

(** The run of ['>'] groups at a position that starts with ['>']. *)
Definition quote_run (s : str) : str :=
  match s with
  | c :: _ => if 62 =? c then take_while gt_or_ws s else []
  | [] => []
  end.

(** The URL pattern of line 26 in closed form: a match is the whole
    rest of the word (the characters up to the next white space), when
    that starts with a scheme and goes on for at least one character. *)
Definition is_url_word (w : str) : bool :=
  (starts_with (py "https://") w && (9 <=? length w)%nat)
  || (starts_with (py "http://") w && (8 <=? length w)%nat)
  || (starts_with (py "www.") w && (5 <=? length w)%nat).

Definition url_len (s : str) : option nat :=
  let w := take_while non_space s in
  if is_url_word w then Some (length w) else None.

(** What [\S+] leaves, at the end of the URL pattern. *)
Definition url_tail (s : str) : option str :=
  if (1 <=? run_len non_space s)%nat
  then Some (drop_while non_space s) else None.

(** The sentence gap of line 32 in closed form. *)
Definition gap_len (b : option char) (s : str) : option nat :=
  match b with
  | Some c =>
      if is_terminator c then
        if (1 <=? run_len (N.eqb 32) s)%nat
        then Some (run_len (N.eqb 32) s) else None
      else None
  | None => None
  end.

(** The word at a position: the characters up to the next white space. *)
Definition word (s : str) : str := take_while non_space s.

(** [Q] holds at no position of [s]. *)
Definition Nowhere (Q : str -> bool) (s : str) : Prop :=
  forall i, Q (drop i s) = false.

(** [Q] looks at the word at the position only, and keeps holding when
    that word is extended. *)
Definition word_monotone (Q : str -> bool) : Prop :=
  Q [] = false /\
  forall o s, word o `prefix_of` word s -> Q o = true -> Q s = true.

(** A match of [m] always ends at the end of a word. *)
Definition ends_word (m : matcher) : Prop :=
  forall b s n, m b s = Some n ->
    match drop n s with
    | [] => True
    | c :: _ => is_space c = true
    end.

(** The replacement strings of [chunk_text]: nothing, or one white space. *)
Definition blank_or_empty (m : matcher) (repl : str) : Prop :=
  (repl = [] /\ ends_word m) \/ (exists w, repl = [w] /\ is_space w = true).

(** The positions the substitutions of [chunk_text] look for. *)
Definition at_run (p : char -> bool) (n : nat) (s : str) : bool :=
  (n <=? run_len p s)%nat.
Definition at_url (s : str) : bool := is_url_word (word s).

(** The patterns of [chunk_text] as matchers in closed form. *)
Definition m_quote : matcher := fun _ s => quote_len s.
Definition m_run (p : char -> bool) (lo : nat) : matcher :=
  fun _ s => if (lo <=? run_len p s)%nat then Some (run_len p s) else None.
Definition m_url : matcher := fun _ s => url_len s.

(** [u in s] on strings: [u] occurs in [s] as a contiguous substring. *)
Fixpoint contains (u s : str) : bool :=
  starts_with u s ||
  match s with
  | [] => false
  | _ :: t => contains u t
  end.

Definition occurs_in (u s : str) : Prop := exists a c, s = a ++ u ++ c.

(** White space in a text after line 29: every white space character is a
    single blank between two words. *)
Definition head_is_space (s : str) : bool :=
  match s with
  | c :: _ => is_space c
  | [] => false
  end.

Fixpoint spaced (s : str) : bool :=
  match s with
  | [] => true
  | c :: t =>
      (if is_space c then (c =? 32) && negb (head_is_space t) else true)
      && spaced t
  end.

Definition tidy (s : str) : bool :=
  spaced s && negb (head_is_space s) && negb (head_is_space (rev s)).

(** What lines 15 to 29 establish about their result. *)
Record normal_form (y : str) : Prop := {
  nf_ascii : Forall (fun c => is_ascii c = true) y;
  nf_tidy : tidy y = true;
  nf_quotes : Nowhere (starts_with [62; 62]) y;
  nf_dashes : Nowhere (at_run (N.eqb 45) 3) y;
  nf_underscores : Nowhere (at_run (N.eqb 95) 3) y;
  nf_urls : Nowhere at_url y
}.

(** A chunk holds the sentences of a group in order: glued together, and
    after its first sentence with the blank that line 41 puts there. *)
Definition glued (group : list str) (chunk : str) : Prop :=
  chunk = concat group \/
  exists first others,
    group = first :: others /\ chunk = first ++ py " " ++ concat others.

(** A text with its blanks left out. *)
Definition unspace (s : str) : str := List.filter (fun c => negb (c =? 32)) s.

(** The bound of a chunk: below [max_length], or one sentence that alone
    reaches [max_length - 1], followed by its blank; when [max_length] is
    not positive the empty chunk is out of bounds too. *)
Definition within (max_length : Z) (sentences : list str) (c : str) : Prop :=
  (len c < max_length)%Z \/
  (c = [] /\ (max_length <= 0)%Z) \/
  (exists s, In s sentences /\ c = s ++ py " " /\ (max_length - 1 <= len s)%Z).

(** The date arguments that make [main] stop: one of the two given (and
    not empty) without the other, or both given and one of them refused
    by the date parser. *)
Definition usage_violation {date : Type} (strptime : list N -> list N + date)
    (a : args) : Prop :=
  truthy (startdate a) <> truthy (enddate a) \/
  (truthy (startdate a) = true /\ truthy (enddate a) = true /\
   ((exists e, strptime (default [] (startdate a)) = inl e) \/
    (exists e, strptime (default [] (enddate a)) = inl e))).

(** ** Auxiliary definitions for the further properties *)

(** [sep.join(l)] *)
Fixpoint join (sep : str) (l : list str) : str :=
  match l with
  | [] => []
  | x :: rest =>
      match rest with
      | [] => x
      | _ :: _ => x ++ sep ++ join sep rest
      end
  end.

(** A chunk ends where a sentence ends: without its surrounding white
    space it is empty or its last character is a terminator. *)
Definition ends_sentence (c : str) : bool :=
  match rev (strip c) with
  | [] => true
  | d :: _ => is_terminator d
  end.

(** A piece ends with a sentence terminator. *)
Definition ends_with_terminator (p : str) : bool :=
  match rev p with
  | d :: _ => is_terminator d
  | [] => false
  end.

(** Every piece but the last is followed by a gap, whose look-behind is the
    character before it; [b] is the character before the first piece. *)
Fixpoint gaps_after_terminators (b : option char) (l : list str) : Prop :=
  match l with
  | [] => True
  | h :: r =>
      match r with
      | [] => True
      | _ :: _ =>
          (exists d, last_of b h = Some d /\ is_terminator d = true) /\
          gaps_after_terminators (Some 32) r
      end
  end.

(** The characters of a normalised text: ASCII, and no white space but the
    blank. *)
Definition plain_char (c : char) : Prop :=
  is_ascii c = true /\ (is_space c = true -> c = 32).

(** The number of ['>'] in the run of ['>'] and white space at a position,
    and the positions where the quote pattern matches. *)
Definition quote_count (s : str) : nat := count_gt (take_while gt_or_ws s).
Definition quote_here (s : str) : bool := (2 <=? quote_count s)%nat.

(** The text one part adds in the loop of lines 61 to 66. *)
Definition is_text_part (part : message) : bool :=
  str_eqb (get_content_type part) (py "text/plain")
  || str_eqb (get_content_type part) (py "text/html").

Definition part_text (codecs : list N -> option codec)
    (get_text : list N -> list N) (part : message) : result str :=
  if str_eqb (get_content_type part) (py "text/plain") then
    decode_part codecs part Ignore
  else if str_eqb (get_content_type part) (py "text/html") then
    match decode_part codecs part Ignore with
    | inl e => inl e
    | inr html_content => inr (get_text_from_html get_text html_content)
    end
  else inr [].

(** The file [save_attachment] writes for a part, if it writes one. *)
Definition attachment_path (part : message) (email_id folder_path : str)
    : option str :=
  if str_eqb (get_content_maintype part) (py "multipart") then None
  else
    match content_disposition (header_of part), filename (header_of part) with
    | Some _, Some (c :: name) =>
        Some (os_path_join folder_path (email_id ++ py "_" ++ c :: name))
    | _, _ => None
    end.

(** A computation that sends nothing to the server. *)
Definition keeps_network {A : Type} (m : M A) : Prop :=
  forall w, network (snd (m w)) = network w.

(** A computation that leaves the file at [p] as it is. *)
Definition keeps_file {A : Type} (p : str) (m : M A) : Prop :=
  forall w, files (snd (m w)) !! p = files w !! p.


(** The search criteria of lines 92 to 96. *)
Definition criteria_of (search_keyword : str)
    (start_date end_date : option str) : str :=
  (if truthy start_date && truthy end_date then
     py "(SINCE " ++ dquote ++ default [] start_date ++ dquote
     ++ py " BEFORE " ++ dquote ++ default [] end_date ++ dquote ++ py ")"
   else py "ALL")
  ++ match search_keyword with
     | [] => []
     | _ => py " BODY " ++ dquote ++ search_keyword ++ dquote
     end.

(** * Properties *)

#[local] Arguments N.eqb : simpl never.
#[local] Arguments N.leb : simpl never.
#[local] Arguments N.ltb : simpl never.

(** Boolean comparisons of lengths are settled by [lia]. *)
Ltac by_lia :=
  symmetry;
  first [apply Nat.leb_le | apply Nat.leb_gt | apply Nat.ltb_lt
        | apply Z.ltb_ge | apply Z.ltb_lt];
  simpl; unfold len in *; simpl; lia.

(** ** Lists of characters *)

Lemma take_drop_while p s : take_while p s ++ drop_while p s = s.
Proof.
  induction s as [|c t IH]; simpl; [done|].
  destruct (p c); simpl; [by rewrite IH | done].
Qed.

Lemma length_drop_while p s :
  (length s - length (drop_while p s))%nat = run_len p s.
Proof.
  unfold run_len. rewrite <- (take_drop_while p s) at 1.
  rewrite length_app. lia.
Qed.

Lemma length_drop_while_le p s : (length (drop_while p s) <= length s)%nat.
Proof.
  rewrite <- (take_drop_while p s) at 2. rewrite length_app. lia.
Qed.

Lemma drop_while_drop p s : drop_while p s = drop (run_len p s) s.
Proof.
  unfold run_len. induction s as [|c t IH]; simpl; [done|].
  destruct (p c); simpl; [apply IH | done].
Qed.

Lemma drop_while_head p s c t : drop_while p s = c :: t -> p c = false.
Proof.
  induction s as [|d u IH]; simpl; [done|].
  destruct (p d) eqn:E; [done|]. intros [= -> _]. exact E.
Qed.

(** ** The matcher on a repetition of one character class *)

Lemma exec_AtLeast lo r b s k :
  exec (AtLeast lo r) b s k = rep_loop (exec r) lo k (S (length s)) O b s.
Proof. reflexivity. Qed.

Lemma exec_Cat r1 r2 b s k :
  exec (Cat r1 r2) b s k = exec r1 b s (fun b' s' => exec r2 b' s' k).
Proof. reflexivity. Qed.

Lemma exec_Alt r1 r2 b s k :
  exec (Alt r1 r2) b s k =
  match exec r1 b s k with Some x => Some x | None => exec r2 b s k end.
Proof. reflexivity. Qed.

Lemma exec_Eps b s k : exec Eps b s k = k b s.
Proof. reflexivity. Qed.

Lemma exec_Chr c b s k :
  exec (Chr c) b s k =
  match s with
  | d :: t => if c =? d then k (Some d) t else None
  | [] => None
  end.
Proof. reflexivity. Qed.

Lemma rep_loop_class p lo k fuel count b s :
  (length s < fuel)%nat ->
  rep_loop (exec (Class p)) lo k fuel count b s = rep_class p lo k count b s.
Proof.
  revert count b s. induction fuel as [|f IH]; intros count b s Hf; [lia|].
  destruct s as [|c t]; simpl; [done|].
  destruct (p c); [|done].
  replace (length t <? S (length t))%nat with true
    by by_lia.
  rewrite IH by (simpl in Hf; lia). done.
Qed.

Lemma rep_class_greedy p lo k count b s x :
  (lo <= count + run_len p s)%nat ->
  k (last_of b (take_while p s)) (drop_while p s) = Some x ->
  rep_class p lo k count b s = Some x.
Proof.
  unfold run_len. revert count b.
  induction s as [|c t IH]; intros count b Hlo Hk; simpl in *.
  - replace (lo <=? count)%nat with true by by_lia.
    done.
  - destruct (p c); simpl in *.
    + rewrite (IH (S count) (Some c)); [done | lia | done].
    + replace (lo <=? count)%nat with true
        by by_lia.
      done.
Qed.

Lemma rep_class_none p lo k count b s :
  (forall j, (j <= run_len p s)%nat -> (lo <= count + j)%nat ->
     k (last_of b (take j s)) (drop j s) = None) ->
  rep_class p lo k count b s = None.
Proof.
  unfold run_len. revert count b.
  induction s as [|c t IH]; intros count b H; simpl in *.
  - destruct (Nat.leb_spec lo count); [|done].
    apply (H O); lia.
  - assert (Hstop : (if (lo <=? count)%nat then k b (c :: t) else None) = None).
    { destruct (Nat.leb_spec lo count); [|done]. apply (H O); lia. }
    destruct (p c); simpl in *; [|done].
    rewrite IH; [done|].
    intros j Hj Hlo. apply (H (S j)); lia.
Qed.

(** A repetition of a class followed by nothing else takes the whole run. *)
Lemma match_len_class_run lo p b s :
  match_len (AtLeast lo (Class p)) b s =
  if (lo <=? run_len p s)%nat then Some (run_len p s) else None.
Proof.
  unfold match_len, match_at. rewrite exec_AtLeast.
  rewrite rep_loop_class by lia.
  destruct (Nat.leb_spec lo (run_len p s)) as [Hle|Hlt].
  - erewrite rep_class_greedy; [|simpl; lia|reflexivity].
    by rewrite length_drop_while.
  - rewrite rep_class_none; [done|]. intros; lia.
Qed.

(** ** The quote pattern *)

Lemma space_not_gt c : is_space c = true -> (62 =? c) = false.
Proof.
  intros H. destruct (N.eqb_spec 62 c) as [<-|]; [|done].
  by vm_compute in H.
Qed.

Lemma count_gt_spaces t : count_gt (take_while is_space t) = O.
Proof.
  unfold count_gt. induction t as [|c t IH]; simpl; [done|].
  destruct (is_space c) eqn:E; simpl; [|done].
  by rewrite (space_not_gt c E).
Qed.

Lemma count_gt_app u v : count_gt (u ++ v) = (count_gt u + count_gt v)%nat.
Proof. unfold count_gt. by rewrite List.filter_app, length_app. Qed.

Lemma take_while_quote t :
  take_while gt_or_ws t =
  take_while is_space t ++ quote_run (drop_while is_space t).
Proof.
  induction t as [|c t IH]; simpl; [done|].
  unfold gt_or_ws at 1.
  destruct (is_space c) eqn:E; simpl.
  - rewrite orb_true_r. by rewrite IH.
  - rewrite orb_false_r. unfold gt_or_ws. rewrite E, orb_false_r.
    by destruct (62 =? c).
Qed.

Lemma quote_run_in_spaces t j :
  (j <= run_len is_space t)%nat ->
  drop j t = drop_while is_space t \/ quote_run (drop j t) = [].
Proof.
  unfold run_len. revert j. induction t as [|c t IH]; intros j Hj; simpl in *.
  - left. by destruct j.
  - destruct (is_space c) eqn:E; simpl in *.
    + destruct j as [|j]; simpl.
      * right. by rewrite (space_not_gt c E).
      * apply IH. lia.
    + left. by replace j with O by lia.
Qed.

Lemma quote_loop fuel count b s :
  (length s < fuel)%nat ->
  rep_loop (exec group_quote) 2 (fun _ s' => Some s') fuel count b s =
  if (2 <=? count + count_gt (quote_run s))%nat
  then Some (drop (length (quote_run s)) s) else None.
Proof.
  revert count b s. induction fuel as [|f IH]; intros count b s Hf; [lia|].
  cbn [rep_loop]. unfold group_quote at 1. rewrite exec_Cat.
  destruct s as [|c t].
  { simpl. by rewrite Nat.add_0_r. }
  cbn [exec Chr]. unfold quote_run.
  destruct (62 =? c) eqn:Ec.
  2:{ cbn [count_gt List.filter length drop]. by rewrite Nat.add_0_r. }
  unfold ws. rewrite rep_loop_class by lia.
  set (k := fun (b' : option N) (s' : list N) =>
              if (length s' <? length (c :: t))%nat
              then rep_loop (exec group_quote) 2 (fun _ s'0 => Some s'0)
                     f (S count) b' s'
              else None).
  assert (Hk : forall b' j, (j <= length t)%nat ->
     k b' (drop j t) =
     if (2 <=? S count + count_gt (quote_run (drop j t)))%nat
     then Some (drop (length (quote_run (drop j t))) (drop j t)) else None).
  { intros b' j Hj. unfold k.
    replace (length (drop j t) <? length (c :: t))%nat with true
      by (symmetry; apply Nat.ltb_lt; rewrite length_drop; simpl; lia).
    apply IH. rewrite length_drop. simpl in Hf. lia. }
  assert (Hrun : (run_len is_space t <= length t)%nat).
  { pose proof (length_drop_while is_space t). lia. }
  assert (Hq : take_while gt_or_ws (c :: t) = c :: take_while gt_or_ws t).
  { simpl. unfold gt_or_ws at 1. by rewrite Ec. }
  rewrite Hq, (take_while_quote t).
  assert (Hc : count_gt (c :: take_while is_space t
                         ++ quote_run (drop_while is_space t))
               = S (count_gt (quote_run (drop_while is_space t)))).
  { change (c :: ?l) with ([c] ++ l). rewrite !count_gt_app.
    rewrite count_gt_spaces. unfold count_gt at 1. simpl. by rewrite Ec. }
  rewrite Hc. clear Hc Hq.
  replace (count + S (count_gt (quote_run (drop_while is_space t))))%nat
    with (S count + count_gt (quote_run (drop_while is_space t)))%nat by lia.
  pose proof (Hk (last_of (Some c) (take_while is_space t))
                (run_len is_space t) Hrun) as Hmax.
  rewrite <- drop_while_drop in Hmax.
  destruct (Nat.leb_spec 2 (S count
              + count_gt (quote_run (drop_while is_space t)))) as [Hge|Hlt].
  - erewrite rep_class_greedy; [|lia|exact Hmax].
    f_equal. cbn [length drop]. rewrite length_app, <- drop_drop.
    fold (run_len is_space t). by rewrite <- drop_while_drop.
  - rewrite rep_class_none.
    + replace (2 <=? count)%nat with false
        by by_lia. done.
    + intros j Hj _. rewrite Hk by lia.
      replace (2 <=? S count + count_gt (quote_run (drop j t)))%nat
        with false; [done|].
      symmetry; apply Nat.leb_gt.
      destruct (quote_run_in_spaces t j Hj) as [->| ->]; [done|].
      unfold count_gt in *. simpl. lia.
Qed.

Lemma match_len_quote b s : match_len re_quote b s = quote_len s.
Proof.
  unfold match_len, match_at, re_quote, quote_len.
  rewrite exec_Cat. unfold ws at 1.
  rewrite exec_AtLeast, rep_loop_class by lia.
  fold group_quote.
  set (k := fun (b' : option N) (s' : list N) =>
              exec (AtLeast 2 group_quote) b' s' (fun _ s'0 => Some s'0)).
  assert (Hk : forall b' s', k b' s' =
     if (2 <=? count_gt (quote_run s'))%nat
     then Some (drop (length (quote_run s')) s') else None).
  { intros b' s'. unfold k. rewrite exec_AtLeast, quote_loop by lia. done. }
  rewrite (take_while_quote s), count_gt_app, count_gt_spaces, Nat.add_0_l.
  destruct (Nat.leb_spec 2 (count_gt (quote_run (drop_while is_space s))))
    as [Hge|Hlt].
  - erewrite rep_class_greedy; [|lia|].
    2:{ rewrite Hk.
        replace (2 <=? count_gt (quote_run (drop_while is_space s)))%nat
          with true by by_lia.
        reflexivity. }
    f_equal. rewrite length_app, length_drop.
    pose proof (length_drop_while is_space s) as H1.
    pose proof (length_drop_while_le is_space s) as H2.
    unfold run_len in H1.
    assert (length (quote_run (drop_while is_space s))
            <= length (drop_while is_space s))%nat; [|lia].
    unfold quote_run. destruct (drop_while is_space s) as [|c t] eqn:E;
      [simpl; lia|].
    destruct (62 =? c); [|simpl; lia].
    rewrite <- (take_drop_while gt_or_ws (c :: t)) at 2.
    rewrite length_app. lia.
  - rewrite rep_class_none; [done|].
    intros j Hj _. rewrite Hk.
    replace (2 <=? count_gt (quote_run (drop j s)))%nat with false; [done|].
    symmetry; apply Nat.leb_gt.
    destruct (quote_run_in_spaces s j Hj) as [->| ->]; [done|].
    unfold count_gt in *. simpl. lia.
Qed.

(** ** Literals and the URL pattern *)

Lemma match_at_class_run lo p b s :
  match_at (AtLeast lo (Class p)) b s =
  if (lo <=? run_len p s)%nat then Some (drop_while p s) else None.
Proof.
  unfold match_at. rewrite exec_AtLeast, rep_loop_class by lia.
  destruct (Nat.leb_spec lo (run_len p s)) as [Hle|Hlt].
  - erewrite rep_class_greedy; [done|simpl; lia|reflexivity].
  - rewrite rep_class_none; [done|]. intros; lia.
Qed.

Lemma exec_Lit l b s k :
  exec (Lit l) b s k =
  if starts_with l s then k (last_of b l) (drop (length l) s) else None.
Proof.
  revert b s. induction l as [|c l IH]; intros b s; [done|].
  cbn [Lit]. rewrite exec_Cat. cbn [exec Chr].
  destruct s as [|d s]; [done|].
  cbn [starts_with length drop last_of].
  destruct (c =? d) eqn:E; [|done].
  apply N.eqb_eq in E as ->. simpl. apply IH.
Qed.

Lemma starts_with_app l1 l2 s :
  starts_with (l1 ++ l2) s =
  starts_with l1 s && starts_with l2 (drop (length l1) s).
Proof.
  revert s. induction l1 as [|c l1 IH]; intros s; simpl; [done|].
  destruct s as [|d s]; [done|]. simpl. by rewrite IH, andb_assoc.
Qed.

Lemma starts_with_word l s :
  forallb non_space l = true ->
  starts_with l s = starts_with l (take_while non_space s).
Proof.
  revert s. induction l as [|c l IH]; intros s Hl; [done|].
  simpl in Hl. apply andb_true_iff in Hl as [Hc Hl].
  destruct s as [|d s]; [done|]. simpl.
  destruct (c =? d) eqn:E.
  - apply N.eqb_eq in E as <-. rewrite Hc. simpl. rewrite N.eqb_refl. simpl.
    by apply IH.
  - destruct (non_space d); simpl; [by rewrite E|done].
Qed.

Lemma word_after_prefix l s :
  forallb non_space l = true -> starts_with l s = true ->
  take_while non_space (drop (length l) s)
    = drop (length l) (take_while non_space s)
  /\ drop_while non_space (drop (length l) s) = drop_while non_space s.
Proof.
  revert s. induction l as [|c l IH]; intros s Hl Hs; [done|].
  simpl in Hl. apply andb_true_iff in Hl as [Hc Hl].
  destruct s as [|d s]; [done|]. simpl in Hs.
  apply andb_true_iff in Hs as [E Hs]. apply N.eqb_eq in E as <-.
  simpl. rewrite Hc. simpl. by apply IH.
Qed.

Lemma url_tail_after l s :
  forallb non_space l = true -> starts_with l s = true ->
  url_tail (drop (length l) s) =
  if (S (length l) <=? run_len non_space s)%nat
  then Some (drop_while non_space s) else None.
Proof.
  intros Hl Hs. unfold url_tail, run_len.
  destruct (word_after_prefix l s Hl Hs) as [-> ->].
  rewrite length_drop.
  destruct (Nat.leb_spec 1 (length (take_while non_space s) - length l));
    destruct (Nat.leb_spec (S (length l)) (length (take_while non_space s)));
    done || lia.
Qed.

Lemma exec_tail b s :
  exec (AtLeast 1 nws) b s (fun _ s' => Some s') = url_tail s.
Proof. apply (match_at_class_run 1 non_space). Qed.

Lemma exec_lit_tail l b s :
  exec (Cat (Lit l) (AtLeast 1 nws)) b s (fun _ s' => Some s') =
  if starts_with l s then url_tail (drop (length l) s) else None.
Proof.
  rewrite exec_Cat, exec_Lit. destruct (starts_with l s); [|done].
  apply exec_tail.
Qed.

Lemma exec_opt_s_tail b s :
  exec (Cat (Opt (Chr 115)) (Cat (Lit (py "://")) (AtLeast 1 nws))) b s
    (fun _ s' => Some s') =
  match
    match s with
    | c :: t =>
        if 115 =? c
        then if starts_with (py "://") t then url_tail (drop 3 t) else None
        else None
    | [] => None
    end
  with
  | Some x => Some x
  | None => if starts_with (py "://") s then url_tail (drop 3 s) else None
  end.
Proof.
  unfold Opt. rewrite exec_Cat, exec_Alt, exec_Eps, exec_Chr.
  rewrite (exec_lit_tail (py "://") b s).
  destruct s as [|c t]; [done|].
  destruct (115 =? c); [|done].
  by rewrite (exec_lit_tail (py "://") (Some c) t).
Qed.

Lemma exec_dot_tail b s :
  exec (Cat (Chr 46) (AtLeast 1 nws)) b s (fun _ s' => Some s') =
  match s with
  | c :: t => if 46 =? c then url_tail t else None
  | [] => None
  end.
Proof.
  rewrite exec_Cat, exec_Chr. destruct s as [|c t]; [done|].
  destruct (46 =? c); [|done]. apply exec_tail.
Qed.

Lemma match_at_url b s :
  match_at re_url b s =
  if is_url_word (take_while non_space s)
  then Some (drop_while non_space s) else None.
Proof.
  unfold match_at, re_url.
  rewrite exec_Alt, (exec_Cat (Lit (py "http"))), (exec_Cat (Lit (py "www"))).
  rewrite !exec_Lit, exec_opt_s_tail, exec_dot_tail.
  unfold is_url_word.
  rewrite <- !starts_with_word by reflexivity.
  fold (run_len non_space s).
  change (py "https://") with (py "http" ++ [115] ++ py "://").
  change (py "http://") with (py "http" ++ py "://").
  change (py "www.") with (py "www" ++ [46]).
  rewrite !starts_with_app.
  change (length (py "http")) with 4%nat.
  change (length (py "www")) with 3%nat.
  change (length (py "://")) with 3%nat.
  change (length [115]) with 1%nat.
  destruct (starts_with (py "http") s) eqn:E1; cbn [andb orb].
  - assert (Ew : starts_with (py "www") s = false).
    { change (py "www") with [119; 119; 119].
      change (py "http") with [104; 116; 116; 112] in E1.
      destruct s as [|c s]; [done|]. cbn [starts_with] in *.
      destruct (N.eqb_spec 104 c) as [<-|]; [done|].
      simpl in E1. done. }
    rewrite Ew. cbn [andb orb]. rewrite orb_false_r.
    destruct (drop 4 s) as [|c t] eqn:Ed.
    { simpl. done. }
    replace (starts_with [115] (c :: t)) with (115 =? c)
      by (simpl; by rewrite andb_true_r).
    destruct (115 =? c) eqn:Ec; cbn [andb orb].
    + apply N.eqb_eq in Ec as <-.
      replace (starts_with (py "://") (115 :: t)) with false by done.
      cbn [andb orb drop]. rewrite orb_false_r. change (drop 0 t) with t.
      destruct (starts_with (py "://") t) eqn:E3; cbn [andb]; [|done].
      assert (Hs : starts_with (py "https://") s = true).
      { change (py "https://") with (py "http" ++ [115] ++ py "://").
        rewrite !starts_with_app, E1.
        change (length (py "http")) with 4%nat. rewrite Ed. simpl.
        exact E3. }
      pose proof (url_tail_after (py "https://") s eq_refl Hs) as Ht.
      change (length (py "https://")) with 8%nat in Ht.
      replace (drop 8 s) with (drop 3 t) in Ht.
      2:{ change 8%nat with (4 + 4)%nat. rewrite <- drop_drop, Ed. done. }
      rewrite Ht. by destruct (9 <=? run_len non_space s)%nat.
    + destruct (starts_with (py "://") (c :: t)) eqn:E3; cbn [andb]; [|done].
      assert (Hs : starts_with (py "http://") s = true).
      { change (py "http://") with (py "http" ++ py "://").
        rewrite !starts_with_app, E1.
        change (length (py "http")) with 4%nat. rewrite Ed. exact E3. }
      pose proof (url_tail_after (py "http://") s eq_refl Hs) as Ht.
      change (length (py "http://")) with 7%nat in Ht.
      replace (drop 7 s) with (drop 3 (c :: t)) in Ht.
      2:{ change 7%nat with (4 + 3)%nat. rewrite <- drop_drop, Ed. done. }
      rewrite Ht. by destruct (8 <=? run_len non_space s)%nat.
  - destruct (starts_with (py "www") s) eqn:E2; cbn [andb orb]; [|done].
    destruct (drop 3 s) as [|c t] eqn:Ed; [done|].
    replace (starts_with [46] (c :: t)) with (46 =? c)
      by (simpl; by rewrite andb_true_r).
    destruct (46 =? c) eqn:Ec; cbn [andb]; [|done].
    assert (Hs : starts_with (py "www.") s = true).
    { change (py "www.") with (py "www" ++ [46]).
      rewrite !starts_with_app, E2.
      change (length (py "www")) with 3%nat. rewrite Ed. simpl.
      by rewrite Ec. }
    pose proof (url_tail_after (py "www.") s eq_refl Hs) as Ht.
    change (length (py "www.")) with 4%nat in Ht.
    replace (drop 4 s) with t in Ht.
    2:{ change 4%nat with (3 + 1)%nat. rewrite <- drop_drop, Ed. done. }
    rewrite Ht. by destruct (5 <=? run_len non_space s)%nat.
Qed.

Lemma match_len_url b s : match_len re_url b s = url_len s.
Proof.
  unfold match_len, url_len. rewrite match_at_url.
  destruct (is_url_word (take_while non_space s)); [|done].
  by rewrite length_drop_while.
Qed.

Lemma match_len_gap b s : match_len re_sentence_gap b s = gap_len b s.
Proof.
  unfold match_len, match_at, re_sentence_gap, gap_len.
  rewrite exec_Cat. cbn [exec].
  destruct b as [c|]; [|done].
  destruct (is_terminator c); [|done].
  pose proof (match_at_class_run 1 (N.eqb 32) (Some c) s) as H.
  unfold match_at in H. fold (Chr 32) in H. cbn [exec] in H. rewrite H.
  destruct (1 <=? run_len (N.eqb 32) s)%nat; [|done].
  by rewrite length_drop_while.
Qed.

(** ** The scan of [re.sub] *)

Lemma sub_scan_ext m1 m2 repl k b s :
  (forall b' s', m1 b' s' = m2 b' s') ->
  sub_scan m1 repl k b s = sub_scan m2 repl k b s.
Proof.
  intros H. revert k b. induction s as [|c t IH]; intros k b; [done|].
  simpl. destruct k as [|k]; [|apply IH].
  rewrite H. destruct (m2 b (c :: t)) as [[|n]|]; by rewrite IH.
Qed.

Lemma sub_scan_skip m repl k b s :
  sub_scan m repl k b s = sub_scan m repl O (last_of b (take k s)) (drop k s).
Proof.
  revert k b. induction s as [|c t IH]; intros k b.
  - by destruct k.
  - destruct k as [|k]; [done|]. simpl. apply IH.
Qed.

Lemma sub_scan_match m repl b c t n :
  m b (c :: t) = Some (S n) ->
  sub_scan m repl O b (c :: t) =
  repl ++ sub_scan m repl O (last_of b (take (S n) (c :: t)))
            (drop (S n) (c :: t)).
Proof. intros H. simpl. rewrite H. by rewrite sub_scan_skip. Qed.

Lemma sub_scan_copy m repl b c t :
  (forall n, m b (c :: t) <> Some (S n)) ->
  sub_scan m repl O b (c :: t) = c :: sub_scan m repl O (Some c) t.
Proof.
  intros H. simpl. destruct (m b (c :: t)) as [[|n]|] eqn:E; try done.
  by destruct (H n).
Qed.

(** Scanning facts are proved by induction on the length of the input; at
    each position the scan either copies a character or replaces a match. *)
Lemma scan_ind (m : matcher) (P : option N -> list N -> Prop) :
  (forall b, P b []) ->
  (forall b c t, (forall n, m b (c :: t) <> Some (S n)) ->
     P (Some c) t -> P b (c :: t)) ->
  (forall b c t n, m b (c :: t) = Some (S n) ->
     P (last_of b (take (S n) (c :: t))) (drop (S n) (c :: t)) ->
     P b (c :: t)) ->
  forall b s, P b s.
Proof.
  intros Hnil Hcopy Hmatch b s.
  remember (length s) as len eqn:Hlen.
  revert b s Hlen. induction len as [len IH] using lt_wf_ind.
  intros b [|c t] Hlen; [apply Hnil|].
  destruct (m b (c :: t)) as [[|n]|] eqn:E.
  - apply Hcopy; [congruence|]. eapply IH; [|reflexivity]. simpl in Hlen. lia.
  - eapply Hmatch; [exact E|]. eapply IH; [|reflexivity].
    subst len. rewrite length_drop. simpl. lia.
  - apply Hcopy; [congruence|]. eapply IH; [|reflexivity]. simpl in Hlen. lia.
Qed.

Lemma sub_scan_Forall (P : N -> Prop) m repl k b s :
  Forall P repl -> Forall P s -> Forall P (sub_scan m repl k b s).
Proof.
  intros Hr. revert k b. induction s as [|c t IH]; intros k b Hs; [done|].
  inversion Hs as [|? ? Hc Ht]; subst. simpl.
  destruct k as [|k]; [|by apply IH].
  destruct (m b (c :: t)) as [[|n]|].
  - constructor; [done|by apply IH].
  - apply Forall_app. split; [done|by apply IH].
  - constructor; [done|by apply IH].
Qed.

(** When the pattern matches nowhere, [re.sub] returns its input. *)
Lemma sub_scan_id m repl b s :
  (forall i b' n, m b' (drop i s) <> Some (S n)) ->
  sub_scan m repl O b s = s.
Proof.
  revert b. induction s as [|c t IH]; intros b H; [done|].
  rewrite sub_scan_copy by apply (H O).
  f_equal. apply IH. intros i. apply (H (S i)).
Qed.

(** ** Words *)

Lemma word_cons c t :
  word (c :: t) = if non_space c then c :: word t else [].
Proof. reflexivity. Qed.

Lemma word_space c t : is_space c = true -> word (c :: t) = [].
Proof. intros H. rewrite word_cons. unfold non_space. by rewrite H. Qed.

Lemma take_while_prefix p (a b : list N) :
  a `prefix_of` b -> take_while p a `prefix_of` take_while p b.
Proof.
  intros [k ->]. induction a as [|c a IH]; simpl.
  - apply prefix_nil.
  - destruct (p c); [by apply prefix_cons|apply prefix_nil].
Qed.

Lemma word_monotone_nil Q o : word_monotone Q -> word o = [] -> Q o = false.
Proof.
  intros [Hnil Hmono] Hw. destruct (Q o) eqn:E; [|done].
  rewrite <- Hnil. symmetry. apply (Hmono o []); [|done].
  rewrite Hw. apply prefix_nil.
Qed.

(** The first word of the output of [re.sub] is a prefix of the first word
    of its input: no substitution of [chunk_text] joins two words. *)
Lemma sub_scan_word m repl :
  blank_or_empty m repl ->
  forall b s, word (sub_scan m repl O b s) `prefix_of` word s.
Proof.
  intros Hr. apply (scan_ind m (fun b s =>
    word (sub_scan m repl O b s) `prefix_of` word s)).
  - intros b. done.
  - intros b c t Hno IH. rewrite sub_scan_copy by done.
    rewrite !word_cons. destruct (non_space c); [by apply prefix_cons|done].
  - intros b c t n Hm IH. rewrite (sub_scan_match _ _ _ _ _ _ Hm).
    destruct Hr as [[-> Hend]|(w & -> & Hw)].
    + rewrite app_nil_l. specialize (Hend _ _ _ Hm).
      remember (drop (S n) (c :: t)) as rest eqn:Hrest.
      remember (last_of b (take (S n) (c :: t))) as b' eqn:Hb'.
      clear Hrest Hb'. destruct rest as [|d u].
      * apply prefix_nil.
      * rewrite (word_space d u Hend) in IH.
        apply prefix_nil_inv in IH. rewrite IH. apply prefix_nil.
    + change ([w] ++ ?l) with (w :: l).
      rewrite (word_space w _ Hw). apply prefix_nil.
Qed.

(** If the pattern fires wherever [Q] holds in the input, [Q] holds
    nowhere in the output.  This covers both the property a substitution
    establishes and the properties it inherits from earlier ones. *)
Lemma nowhere_sub Q m repl :
  word_monotone Q -> blank_or_empty m repl ->
  forall b s,
    (forall i b', Q (drop i s) = true -> exists n, m b' (drop i s) = Some (S n)) ->
    Nowhere Q (sub_scan m repl O b s).
Proof.
  intros HQ Hr. apply (scan_ind m (fun b s =>
    (forall i b', Q (drop i s) = true ->
       exists n, m b' (drop i s) = Some (S n)) ->
    Nowhere Q (sub_scan m repl O b s))).
  - intros b _ i. simpl. rewrite drop_nil. apply HQ.
  - intros b c t Hno IH H. rewrite sub_scan_copy by done.
    intros [|i]; simpl.
    + destruct (Q (c :: sub_scan m repl O (Some c) t)) eqn:E; [|done].
      destruct (H O b) as [n Hn]; [|by destruct (Hno n)].
      simpl. destruct HQ as [_ Hmono]. eapply Hmono; [|exact E].
      rewrite !word_cons. destruct (non_space c); [|done].
      apply prefix_cons. by apply sub_scan_word.
    + apply IH. intros j. apply (H (S j)).
  - intros b c t n Hm IH H. rewrite (sub_scan_match _ _ _ _ _ _ Hm).
    assert (Hrest : Nowhere Q (sub_scan m repl O
              (last_of b (take (S n) (c :: t))) (drop (S n) (c :: t)))).
    { apply IH. intros j b'. rewrite drop_drop. apply H. }
    destruct Hr as [[-> _]|(w & -> & Hw)]; [done|].
    intros [|i]; [|apply Hrest].
    apply word_monotone_nil; [done|]. by apply word_space.
Qed.

Lemma nowhere_drop Q s i : Nowhere Q s -> Nowhere Q (drop i s).
Proof. intros H j. rewrite drop_drop. apply H. Qed.

Lemma nowhere_prefix Q (a b : list N) :
  word_monotone Q -> Nowhere Q (a ++ b) -> Nowhere Q a.
Proof.
  intros HQ H i. destruct (Q (drop i a)) eqn:E; [|done].
  rewrite <- (H i). symmetry. destruct HQ as [_ Hmono].
  eapply Hmono; [|exact E].
  apply take_while_prefix. rewrite drop_app. by eexists.
Qed.

(** ** The positions the substitutions look for *)

Lemma take_while_word p s :
  (forall c, p c = true -> non_space c = true) ->
  take_while p s = take_while p (word s).
Proof.
  intros Hp. induction s as [|c t IH]; [done|].
  rewrite word_cons. simpl. destruct (p c) eqn:E.
  - rewrite (Hp c E). simpl. by rewrite E, IH.
  - destruct (non_space c); simpl; [by rewrite E|done].
Qed.

Lemma at_run_monotone p n :
  (forall c, p c = true -> non_space c = true) -> (1 <= n)%nat ->
  word_monotone (at_run p n).
Proof.
  intros Hp Hn. split.
  - unfold at_run, run_len. simpl. apply Nat.leb_gt. lia.
  - intros o s Hpre. unfold at_run, run_len.
    rewrite (take_while_word p o Hp), (take_while_word p s Hp).
    intros H%Nat.leb_le. apply Nat.leb_le.
    apply (take_while_prefix p) in Hpre. apply prefix_length in Hpre. lia.
Qed.

Lemma starts_with_app_r l (a k : list N) :
  starts_with l a = true -> starts_with l (a ++ k) = true.
Proof.
  revert a. induction l as [|c l IH]; intros a; [done|].
  destruct a as [|d a]; [done|]. simpl.
  intros [-> H]%andb_true_iff. simpl. by apply IH.
Qed.

Lemma starts_with_monotone l :
  l <> [] -> forallb non_space l = true -> word_monotone (starts_with l).
Proof.
  intros Hl Hns. split.
  - by destruct l.
  - intros o s [k Hk]. rewrite (starts_with_word l o Hns).
    rewrite (starts_with_word l s Hns). fold (word o) (word s). rewrite Hk.
    apply starts_with_app_r.
Qed.

Lemma is_url_word_app (w k : list N) :
  is_url_word w = true -> is_url_word (w ++ k) = true.
Proof.
  unfold is_url_word. rewrite length_app.
  intros H. repeat (apply orb_true_iff in H as [H|H]);
    apply andb_true_iff in H as [H1 H2%Nat.leb_le];
    rewrite (starts_with_app_r _ _ k H1);
    match goal with
    | |- context [(?n <=? length w + length k)%nat] =>
        replace (n <=? length w + length k)%nat with true
          by by_lia
    end; simpl; by rewrite ?orb_true_r.
Qed.

Lemma at_url_monotone : word_monotone at_url.
Proof.
  split; [done|]. intros o s [k Hk]. unfold at_url. rewrite Hk.
  apply is_url_word_app.
Qed.

Lemma is_url_word_length w : is_url_word w = true -> (5 <= length w)%nat.
Proof.
  unfold is_url_word. intros H.
  repeat (apply orb_true_iff in H as [H|H]);
    apply andb_true_iff in H as [_ H%Nat.leb_le]; lia.
Qed.

(** ** The matchers in closed form *)

Lemma m_url_ends_word : ends_word m_url.
Proof.
  intros b s n. unfold m_url, url_len.
  destruct (is_url_word (take_while non_space s)); [|done].
  intros [= <-]. fold (run_len non_space s). rewrite <- drop_while_drop.
  destruct (drop_while non_space s) as [|c t] eqn:E; [done|].
  apply drop_while_head in E. unfold non_space in E.
  by destruct (is_space c).
Qed.

Lemma blank_repl m : blank_or_empty m (py " ").
Proof. right. by exists 32. Qed.

Lemma url_repl : blank_or_empty m_url [].
Proof. left. split; [done|apply m_url_ends_word]. Qed.

Lemma m_run_fires p lo b s :
  (1 <= lo)%nat -> at_run p lo s = true -> exists n, m_run p lo b s = Some (S n).
Proof.
  unfold at_run, m_run. intros Hlo H. rewrite H.
  apply Nat.leb_le in H. exists (run_len p s - 1)%nat. f_equal. lia.
Qed.

Lemma m_url_fires b s : at_url s = true -> exists n, m_url b s = Some (S n).
Proof.
  unfold at_url, m_url, url_len, word. intros H. rewrite H.
  apply is_url_word_length in H.
  exists (length (take_while non_space s) - 1)%nat. f_equal. lia.
Qed.

Lemma m_quote_fires b s :
  starts_with [62; 62] s = true -> exists n, m_quote b s = Some (S n).
Proof.
  destruct s as [|c [|d t]]; try done.
  - simpl. by rewrite andb_false_r.
  - simpl. rewrite andb_true_r.
    intros [H1%N.eqb_eq H2%N.eqb_eq]%andb_true_iff. subst c d.
    unfold m_quote, quote_len.
    change (take_while gt_or_ws (62 :: 62 :: t))
      with (62 :: 62 :: take_while gt_or_ws t).
    change (count_gt (62 :: 62 :: take_while gt_or_ws t))
      with (S (S (count_gt (take_while gt_or_ws t)))).
    simpl. eauto.
Qed.

Lemma re_sub_quote repl s :
  re_sub re_quote repl s = sub_scan m_quote repl O None s.
Proof. apply sub_scan_ext. intros. apply match_len_quote. Qed.

Lemma re_sub_run lo p repl s :
  re_sub (AtLeast lo (Class p)) repl s = sub_scan (m_run p lo) repl O None s.
Proof. apply sub_scan_ext. intros. apply match_len_class_run. Qed.

Lemma re_sub_url repl s :
  re_sub re_url repl s = sub_scan m_url repl O None s.
Proof. apply sub_scan_ext. intros. apply match_len_url. Qed.

(** [normalize] over the closed forms. *)
Lemma normalize_unfold text :
  normalize text =
  strip (sub_scan (m_run is_space 1) (py " ") O None
    (sub_scan m_url [] O None
      (sub_scan (m_run is_space 2) (py " ") O None
        (sub_scan (m_run (N.eqb 95) 3) (py " ") O None
          (sub_scan (m_run (N.eqb 45) 3) (py " ") O None
            (sub_scan m_quote (py " ") O None
              (encode_ascii_ignore text))))))).
Proof.
  unfold normalize, re_spaces1, re_spaces2, re_underscores, re_dashes, ws, Chr.
  by rewrite !re_sub_run, re_sub_url, re_sub_quote.
Qed.

(** ** The matcher: what is left is a suffix, and no match is empty *)

Lemma rep_loop_suffix
    (body : option N -> list N -> (option N -> list N -> option (list N))
            -> option (list N)) lo k :
  (forall b s k' x, body b s k' = Some x ->
     exists b' s', s' `suffix_of` s /\ k' b' s' = Some x) ->
  forall fuel count b s x,
    rep_loop body lo k fuel count b s = Some x ->
    exists b' s', s' `suffix_of` s /\ k b' s' = Some x.
Proof.
  intros Hbody. induction fuel as [|f IH]; intros count b s x; [done|].
  cbn [rep_loop].
  destruct (body b s _) as [y|] eqn:E.
  - intros [= ->]. apply Hbody in E as (b' & s' & Hs & E).
    destruct (length s' <? length s)%nat; [|done].
    apply IH in E as (b'' & s'' & Hs' & E).
    exists b'', s''. split; [by etrans|done].
  - destruct (lo <=? count)%nat; [|done]. intros H. by exists b, s.
Qed.

Lemma exec_suffix r b s k x :
  exec r b s k = Some x ->
  exists b' s', s' `suffix_of` s /\ k b' s' = Some x.
Proof.
  revert b s k x.
  induction r as [|p|r1 IH1 r2 IH2|r1 IH1 r2 IH2|lo r IH|p]; intros b s k x.
  - intros H. by exists b, s.
  - destruct s as [|c t]; [done|]. simpl. destruct (p c); [|done].
    intros H. exists (Some c), t. split; [by apply suffix_cons_r|done].
  - rewrite exec_Cat. intros (b1 & s1 & Hs1 & H)%IH1.
    apply IH2 in H as (b2 & s2 & Hs2 & H).
    exists b2, s2. split; [by etrans|done].
  - rewrite exec_Alt. destruct (exec r1 b s k) as [y|] eqn:E.
    + intros [= ->]. exact (IH1 _ _ _ _ E).
    + apply IH2.
  - rewrite exec_AtLeast. by apply rep_loop_suffix.
  - simpl. destruct b as [c|]; [|done]. destruct (p c); [|done].
    intros H. by exists (Some c), s.
Qed.

Lemma match_at_suffix r b s rest :
  match_at r b s = Some rest -> rest `suffix_of` s.
Proof.
  intros (b' & s' & Hs & [= <-])%exec_suffix. done.
Qed.

Lemma count_gt_le u : (count_gt u <= length u)%nat.
Proof. apply List.filter_length_le. Qed.

(** None of the patterns of [chunk_text] matches the empty string, so the
    scans never meet the empty-match rules of [re.sub] and [re.split]. *)
Lemma patterns_never_empty r b s :
  In r [re_quote; re_dashes; re_underscores; re_spaces2; re_url; re_spaces1;
        re_sentence_gap] ->
  match_len r b s <> Some O.
Proof.
  intros [<-|[<-|[<-|[<-|[<-|[<-|[<-|[]]]]]]]].
  - rewrite match_len_quote. unfold quote_len.
    destruct (Nat.leb_spec 2 (count_gt (take_while gt_or_ws s))); [|done].
    pose proof (count_gt_le (take_while gt_or_ws s)). intros [= H']. lia.
  - unfold re_dashes, Chr. rewrite match_len_class_run.
    destruct (Nat.leb_spec 3 (run_len (N.eqb 45) s)); [|done].
    intros [= H']. lia.
  - unfold re_underscores, Chr. rewrite match_len_class_run.
    destruct (Nat.leb_spec 3 (run_len (N.eqb 95) s)); [|done].
    intros [= H']. lia.
  - unfold re_spaces2, ws. rewrite match_len_class_run.
    destruct (Nat.leb_spec 2 (run_len is_space s)); [|done].
    intros [= H']. lia.
  - rewrite match_len_url. unfold url_len.
    destruct (is_url_word (take_while non_space s)) eqn:E; [|done].
    apply is_url_word_length in E. intros [= H']. lia.
  - unfold re_spaces1, ws. rewrite match_len_class_run.
    destruct (Nat.leb_spec 1 (run_len is_space s)); [|done].
    intros [= H']. lia.
  - rewrite match_len_gap. unfold gap_len.
    destruct b as [c|]; [|done]. destruct (is_terminator c); [|done].
    destruct (Nat.leb_spec 1 (run_len (N.eqb 32) s)); [|done].
    intros [= H']. lia.
Qed.

(** The matcher and the scans on inputs run through CPython's [re]. *)
Example re_sub_quote_example :
  re_sub re_quote (py " ") (py "a > b >> c  >" ++ [9] ++ py "> > d >")
  = py "a > b c d >".
Proof. vm_compute. reflexivity. Qed.

Example re_sub_url_example :
  re_sub re_url [] (py "a http:// b www. c https://x.y/z d wwwww.k.l")
  = py "a http:// b www. c  d ww".
Proof. vm_compute. reflexivity. Qed.

Example re_split_example :
  re_split re_sentence_gap (py "One.  Two! Three?Four. ")
  = [py "One."; py "Two!"; py "Three?Four."; []].
Proof. vm_compute. reflexivity. Qed.

Example re_split_empty : re_split re_sentence_gap [] = [[]].
Proof. reflexivity. Qed.

(** ** What the substitutions keep *)

Lemma nowhere_blank Q m b s :
  word_monotone Q -> Nowhere Q s -> Nowhere Q (sub_scan m (py " ") O b s).
Proof.
  intros HQ H. apply nowhere_sub; [done|apply blank_repl|].
  intros i b' Hi. by rewrite H in Hi.
Qed.

Lemma nowhere_url Q b s :
  word_monotone Q -> Nowhere Q s -> Nowhere Q (sub_scan m_url [] O b s).
Proof.
  intros HQ H. apply nowhere_sub; [done|apply url_repl|].
  intros i b' Hi. by rewrite H in Hi.
Qed.

Lemma rstrip_prefix s : s = rstrip s ++ rev (take_while is_space (rev s)).
Proof.
  unfold rstrip. rewrite <- rev_app_distr, take_drop_while.
  by rewrite rev_involutive.
Qed.

Lemma strip_drop s : strip s = drop (run_len is_space (rstrip s)) (rstrip s).
Proof. unfold strip, lstrip. apply drop_while_drop. Qed.

Lemma nowhere_strip Q s : word_monotone Q -> Nowhere Q s -> Nowhere Q (strip s).
Proof.
  intros HQ H. rewrite strip_drop. apply nowhere_drop.
  apply (nowhere_prefix Q _ (rev (take_while is_space (rev s)))); [done|].
  by rewrite <- rstrip_prefix.
Qed.

Lemma dash_not_space c : (45 =? c) = true -> non_space c = true.
Proof. by intros <-%N.eqb_eq. Qed.

Lemma underscore_not_space c : (95 =? c) = true -> non_space c = true.
Proof. by intros <-%N.eqb_eq. Qed.

Lemma quotes_monotone : word_monotone (starts_with [62; 62]).
Proof. by apply starts_with_monotone. Qed.

Lemma dashes_monotone : word_monotone (at_run (N.eqb 45) 3).
Proof. apply at_run_monotone; [apply dash_not_space|lia]. Qed.

Lemma underscores_monotone : word_monotone (at_run (N.eqb 95) 3).
Proof. apply at_run_monotone; [apply underscore_not_space|lia]. Qed.

(** ** White space after the last substitution *)

Lemma spaced_cons c t :
  spaced (c :: t) =
  (if is_space c then (c =? 32) && negb (head_is_space t) else true)
  && spaced t.
Proof. reflexivity. Qed.

Lemma spaced_spaces1 b s :
  spaced (sub_scan (m_run is_space 1) (py " ") O b s) = true.
Proof.
  revert b s. apply (scan_ind (m_run is_space 1) (fun b s =>
    spaced (sub_scan (m_run is_space 1) (py " ") O b s) = true)).
  - done.
  - intros b c t Hno IH. rewrite sub_scan_copy by done.
    rewrite spaced_cons, IH, andb_true_r.
    destruct (is_space c) eqn:E; [|done].
    exfalso. unfold m_run, run_len in Hno. simpl in Hno. rewrite E in Hno.
    simpl in Hno. by eapply Hno.
  - intros b c t n Hm IH. rewrite (sub_scan_match _ _ _ _ _ _ Hm).
    change (py " " ++ ?l) with (32 :: l).
    rewrite spaced_cons, IH, andb_true_r.
    change (is_space 32) with true. cbv iota. rewrite N.eqb_refl.
    unfold m_run in Hm.
    destruct (1 <=? run_len is_space (c :: t))%nat; [|done].
    injection Hm as Hm. rewrite <- Hm, <- drop_while_drop.
    destruct (drop_while is_space (c :: t)) as [|d u] eqn:Ed; [done|].
    apply drop_while_head in Ed.
    rewrite sub_scan_copy.
    + simpl. by rewrite Ed.
    + intros k. unfold m_run, run_len. simpl. by rewrite Ed.
Qed.

Lemma spaced_app_l (a b : list N) : spaced (a ++ b) = true -> spaced a = true.
Proof.
  induction a as [|c a IH]; [done|].
  simpl app. rewrite !spaced_cons.
  intros [H1 H2]%andb_true_iff. rewrite (IH H2), andb_true_r.
  destruct (is_space c); [|done].
  apply andb_true_iff in H1 as [-> H1]. simpl.
  destruct a as [|d a]; [done|]. exact H1.
Qed.

Lemma spaced_drop i s : spaced s = true -> spaced (drop i s) = true.
Proof.
  revert i. induction s as [|c t IH]; intros i H; [by destruct i|].
  destruct i as [|i]; [done|]. simpl. apply IH.
  rewrite spaced_cons in H. by apply andb_true_iff in H as [_ H].
Qed.

Lemma head_is_space_app (a b : list N) :
  a <> [] -> head_is_space (a ++ b) = head_is_space a.
Proof. by destruct a. Qed.

Lemma tidy_strip s : spaced s = true -> tidy (strip s) = true.
Proof.
  intros Hs. unfold tidy.
  assert (Hr : spaced (rstrip s) = true).
  { apply (spaced_app_l _ (rev (take_while is_space (rev s)))).
    by rewrite <- rstrip_prefix. }
  rewrite strip_drop, (spaced_drop _ _ Hr). simpl.
  rewrite <- strip_drop. apply andb_true_iff. split.
  - unfold strip, lstrip.
    destruct (drop_while is_space (rstrip s)) as [|c t] eqn:E; [done|].
    apply drop_while_head in E. simpl. by rewrite E.
  - unfold strip, lstrip.
    destruct (drop_while is_space (rstrip s)) as [|c t] eqn:E; [done|].
    rewrite <- E.
    assert (Hrev : rev (rstrip s)
              = rev (drop_while is_space (rstrip s))
                ++ rev (take_while is_space (rstrip s))).
    { by rewrite <- rev_app_distr, take_drop_while. }
    assert (Hne : rev (drop_while is_space (rstrip s)) <> []).
    { rewrite E. simpl. by destruct (rev t). }
    rewrite <- (head_is_space_app _ (rev (take_while is_space (rstrip s))) Hne).
    rewrite <- Hrev. unfold rstrip. rewrite rev_involutive.
    destruct (drop_while is_space (rev s)) as [|d u] eqn:Ed; [done|].
    apply drop_while_head in Ed. simpl. by rewrite Ed.
Qed.

(** ** The result of lines 15 to 29 *)

Lemma Forall_strip (P : N -> Prop) s : Forall P s -> Forall P (strip s).
Proof.
  intros H. rewrite strip_drop. apply Forall_drop.
  unfold rstrip. apply Forall_rev. rewrite drop_while_drop.
  apply Forall_drop. by apply Forall_rev.
Qed.

Create HintDb monotone.
#[local] Hint Resolve quotes_monotone dashes_monotone underscores_monotone
  at_url_monotone blank_repl url_repl : monotone.

(** A property a substitution has established is handed down through the
    substitutions that follow and through [strip]. *)
Ltac inherit :=
  first
    [ assumption
    | first [apply nowhere_strip | apply nowhere_blank | apply nowhere_url];
      [solve [auto with monotone] | inherit] ].

Lemma normalize_normal_form text : normal_form (normalize text).
Proof.
  rewrite normalize_unfold.
  set (t1 := encode_ascii_ignore text).
  set (t2 := sub_scan m_quote (py " ") O None t1).
  set (t3 := sub_scan (m_run (N.eqb 45) 3) (py " ") O None t2).
  set (t4 := sub_scan (m_run (N.eqb 95) 3) (py " ") O None t3).
  set (t5 := sub_scan (m_run is_space 2) (py " ") O None t4).
  set (t6 := sub_scan m_url [] O None t5).
  set (t7 := sub_scan (m_run is_space 1) (py " ") O None t6).
  assert (Hq : Nowhere (starts_with [62; 62]) t2).
  { apply nowhere_sub; auto with monotone.
    intros i b' H. by apply m_quote_fires. }
  assert (Hd : Nowhere (at_run (N.eqb 45) 3) t3).
  { apply nowhere_sub; auto with monotone.
    intros i b' H. apply m_run_fires; [lia|done]. }
  assert (Hu : Nowhere (at_run (N.eqb 95) 3) t4).
  { apply nowhere_sub; auto with monotone.
    intros i b' H. apply m_run_fires; [lia|done]. }
  assert (Hl : Nowhere at_url t6).
  { apply nowhere_sub; auto with monotone.
    intros i b' H. by apply m_url_fires. }
  split.
  - apply Forall_strip.
    repeat (apply sub_scan_Forall; [by repeat constructor|]).
    unfold t1, encode_ascii_ignore. apply Forall_forall.
    intros c Hc%list_elem_of_In. by apply List.filter_In in Hc as [_ Hc].
  - apply tidy_strip, spaced_spaces1.
  - inherit.
  - inherit.
  - inherit.
  - inherit.
Qed.

(** ** Substrings *)

Lemma starts_with_self u c : starts_with u (u ++ c) = true.
Proof. induction u as [|d u IH]; [done|]. simpl. by rewrite N.eqb_refl. Qed.

Lemma starts_with_split u s :
  starts_with u s = true -> s = u ++ drop (length u) s.
Proof.
  revert s. induction u as [|d u IH]; intros s; [done|].
  destruct s as [|e s]; [done|]. simpl.
  intros [->%N.eqb_eq H]%andb_true_iff. f_equal. by apply IH.
Qed.

Lemma contains_nowhere u s :
  contains u s = false <-> Nowhere (starts_with u) s.
Proof.
  induction s as [|c t IH]; simpl.
  - rewrite orb_false_r. split.
    + intros H i. by rewrite drop_nil.
    + intros H. apply (H O).
  - rewrite orb_false_iff, IH. split.
    + intros [H1 H2] [|i]; [done|apply H2].
    + intros H. split; [apply (H O)|]. intros i. apply (H (S i)).
Qed.

Lemma contains_occurs u s : contains u s = true <-> occurs_in u s.
Proof.
  split.
  - induction s as [|c t IH]; simpl.
    + rewrite orb_false_r. intros H. exists [], (drop (length u) []).
      by apply starts_with_split.
    + intros [H|H]%orb_true_iff.
      * exists [], (drop (length u) (c :: t)). by apply starts_with_split.
      * destruct (IH H) as (a & d & ->). by exists (c :: a), d.
  - intros (a & d & ->). induction a as [|c a IH]; simpl.
    + pose proof (starts_with_self u d) as H.
      destruct (u ++ d); simpl; by rewrite H.
    + by rewrite IH, orb_true_r.
Qed.

Lemma nowhere_not_at Q (a c : list N) : Nowhere Q (a ++ c) -> Q c = false.
Proof.
  intros H. specialize (H (length a)). by rewrite drop_app_length in H.
Qed.

(** ** White space in a tidy text *)

Lemma tidy_spaced y : tidy y = true -> spaced y = true.
Proof. unfold tidy. by intros [[H _]%andb_true_iff _]%andb_true_iff. Qed.

Lemma spaced_head c t :
  spaced (c :: t) = true -> is_space c = true ->
  c = 32 /\ head_is_space t = false.
Proof.
  rewrite spaced_cons. intros [H _]%andb_true_iff Hc. rewrite Hc in H.
  apply andb_true_iff in H as [->%N.eqb_eq H]. split; [done|].
  by destruct (head_is_space t).
Qed.

Lemma drop_while_id s : head_is_space s = false -> drop_while is_space s = s.
Proof. destruct s as [|c t]; [done|]. simpl. by intros ->. Qed.

Lemma take_while_nil s : head_is_space s = false -> take_while is_space s = [].
Proof. destruct s as [|c t]; [done|]. simpl. by intros ->. Qed.

Lemma spaced_run_le s : spaced s = true -> (run_len is_space s <= 1)%nat.
Proof.
  unfold run_len. destruct s as [|c t]; [simpl; lia|]. intros H.
  simpl. destruct (is_space c) eqn:E; [|simpl; lia].
  destruct (spaced_head c t H E) as [_ Ht].
  rewrite (take_while_nil t Ht). simpl. lia.
Qed.

Lemma strip_tidy y : tidy y = true -> strip y = y.
Proof.
  unfold tidy. intros [[_ H1]%andb_true_iff H2]%andb_true_iff.
  apply negb_true_iff in H1, H2.
  unfold strip, lstrip, rstrip.
  rewrite (drop_while_id (rev y) H2), rev_involutive.
  by apply drop_while_id.
Qed.

(** ** Where the substitutions change nothing *)

Lemma encode_ascii_id y :
  Forall (fun c => is_ascii c = true) y -> encode_ascii_ignore y = y.
Proof.
  unfold encode_ascii_ignore. induction 1 as [|c t Hc _ IH]; [done|].
  simpl. by rewrite Hc, IH.
Qed.

Lemma sub_run_id p lo repl b y :
  (1 <= lo)%nat -> Nowhere (at_run p lo) y ->
  sub_scan (m_run p lo) repl O b y = y.
Proof.
  intros Hlo H. apply sub_scan_id. intros i b' n Hm.
  specialize (H i). unfold at_run in H. unfold m_run in Hm.
  by rewrite H in Hm.
Qed.

Lemma sub_url_id b y : Nowhere at_url y -> sub_scan m_url [] O b y = y.
Proof.
  intros H. apply sub_scan_id. intros i b' n Hm.
  specialize (H i). unfold at_url, word in H. unfold m_url, url_len in Hm.
  by rewrite H in Hm.
Qed.

Lemma spaced_nowhere2 y : spaced y = true -> Nowhere (at_run is_space 2) y.
Proof.
  intros H i. unfold at_run. apply Nat.leb_gt.
  pose proof (spaced_run_le _ (spaced_drop i y H)). lia.
Qed.

Lemma sub_spaces1_id b y :
  spaced y = true -> sub_scan (m_run is_space 1) (py " ") O b y = y.
Proof.
  revert b y. apply (scan_ind (m_run is_space 1) (fun b y =>
    spaced y = true -> sub_scan (m_run is_space 1) (py " ") O b y = y)).
  - done.
  - intros b c t Hno IH H. rewrite sub_scan_copy by done. f_equal.
    apply IH. rewrite spaced_cons in H. by apply andb_true_iff in H as [_ H].
  - intros b c t n Hm IH H. rewrite (sub_scan_match _ _ _ _ _ _ Hm).
    unfold m_run in Hm.
    destruct (Nat.leb_spec 1 (run_len is_space (c :: t))) as [Hge|]; [|done].
    injection Hm as Hm. pose proof (spaced_run_le _ H) as Hle.
    assert (n = O) as -> by lia.
    assert (Hc : is_space c = true).
    { unfold run_len in Hge. simpl in Hge.
      destruct (is_space c); [done|simpl in Hge; lia]. }
    destruct (spaced_head c t H Hc) as [-> _].
    change (py " " ++ ?l) with (32 :: l). f_equal. apply IH.
    simpl. rewrite spaced_cons in H. by apply andb_true_iff in H as [_ H].
Qed.

(** In a tidy text the quote pattern can only match at two ['>'] that are
    adjacent or one blank apart. *)
Lemma quote_run_nonempty s :
  (1 <= count_gt (quote_run s))%nat -> exists t, s = 62 :: t.
Proof.
  destruct s as [|c t]; [unfold count_gt; simpl; lia|].
  unfold quote_run. destruct (N.eqb_spec 62 c) as [<-|].
  - by exists t.
  - unfold count_gt. simpl. lia.
Qed.

Lemma quote_needs_pair y i b n :
  spaced y = true -> m_quote b (drop i y) = Some (S n) ->
  exists j, starts_with [62; 62] (drop j y) = true
         \/ starts_with (py "> >") (drop j y) = true.
Proof.
  intros Hy. unfold m_quote, quote_len.
  destruct (Nat.leb_spec 2 (count_gt (take_while gt_or_ws (drop i y))))
    as [Hge|]; [|done]. intros _.
  rewrite take_while_quote, count_gt_app, count_gt_spaces in Hge.
  rewrite drop_while_drop, drop_drop in Hge.
  set (j := (i + run_len is_space (drop i y))%nat) in *.
  destruct (quote_run_nonempty (drop j y)) as [t Ht]; [lia|].
  exists j. rewrite Ht in *. unfold quote_run in Hge.
  change (62 =? 62) with true in Hge. cbv iota in Hge.
  change (take_while gt_or_ws (62 :: t))
    with (62 :: take_while gt_or_ws t) in Hge.
  change (62 :: ?l) with ([62] ++ l) in Hge.
  rewrite count_gt_app, take_while_quote, count_gt_app, count_gt_spaces in Hge.
  change (count_gt [62]) with 1%nat in Hge.
  destruct (quote_run_nonempty (drop_while is_space t)) as [t' Ht']; [lia|].
  assert (Hst : spaced t = true).
  { pose proof (spaced_drop (S j) y Hy) as H.
    replace (drop (S j) y) with (drop 1 (drop j y)) in H
      by (rewrite drop_drop; f_equal; lia).
    by rewrite Ht in H. }
  destruct t as [|d t1]; [done|].
  destruct (is_space d) eqn:Ed.
  - destruct (spaced_head d t1 Hst Ed) as [-> Ht1].
    simpl in Ht'. rewrite (drop_while_id t1 Ht1) in Ht'. subst t1.
    right. done.
  - simpl in Ht'. rewrite Ed in Ht'. injection Ht' as -> ->. left. done.
Qed.

Lemma sub_quote_id b y :
  spaced y = true -> Nowhere (starts_with [62; 62]) y ->
  contains (py "> >") y = false ->
  sub_scan m_quote (py " ") O b y = y.
Proof.
  intros Hy Hq Hp. apply sub_scan_id. intros i b' n Hm.
  destruct (quote_needs_pair y i b' n Hy Hm) as [j [H|H]].
  - by rewrite Hq in H.
  - apply contains_nowhere in Hp. by rewrite Hp in H.
Qed.

(** A text in normal form without a pair of ['>'] one blank apart is left
    as it is by lines 15 to 29. *)
Lemma normalize_fixed y :
  normal_form y -> contains (py "> >") y = false -> normalize y = y.
Proof.
  intros [Ha Ht Hq Hd Hu Hl] Hp. pose proof (tidy_spaced y Ht) as Hs.
  rewrite normalize_unfold.
  rewrite (encode_ascii_id y Ha), (sub_quote_id None y Hs Hq Hp).
  rewrite (sub_run_id _ 3 _ None y) by (lia || done).
  rewrite (sub_run_id _ 3 _ None y) by (lia || done).
  rewrite (sub_run_id _ 2 _ None y) by (lia || by apply spaced_nowhere2).
  rewrite (sub_url_id None y Hl), (sub_spaces1_id None y Hs).
  by apply strip_tidy.
Qed.

(** ** The output of the normalisation *)

Lemma starts_with_run c n s :
  starts_with (repeat c n) s = true -> at_run (N.eqb c) n s = true.
Proof.
  unfold at_run, run_len. revert s. induction n as [|n IH]; intros s; [done|].
  destruct s as [|d s]; [done|]. simpl.
  intros [E H]%andb_true_iff. rewrite E. simpl.
  apply Nat.leb_le. specialize (IH s H). apply Nat.leb_le in IH. lia.
Qed.

Lemma nowhere_weaken (Q Q' : list N -> bool) s :
  (forall t, Q' t = true -> Q t = true) -> Nowhere Q s -> Nowhere Q' s.
Proof.
  intros H Hs i. destruct (Q' (drop i s)) eqn:E; [|done].
  by rewrite <- (Hs i), (H _ E).
Qed.

Lemma word_app_nonspace l s :
  forallb non_space l = true -> word (l ++ s) = l ++ word s.
Proof.
  induction l as [|c l IH]; [done|]. simpl.
  intros [Hc Hl]%andb_true_iff. rewrite word_cons, Hc. by rewrite IH.
Qed.

Lemma scheme_then_word scheme w :
  In scheme [py "http://"; py "https://"; py "www."] -> w <> [] ->
  is_url_word (scheme ++ w) = true.
Proof.
  intros Hin Hw. unfold is_url_word. rewrite length_app.
  assert (1 <= length w)%nat by (destruct w; [done|simpl; lia]).
  destruct Hin as [<-|[<-|[<-|[]]]].
  - rewrite (starts_with_self (py "http://") w).
    replace (8 <=? length (py "http://") + length w)%nat with true
      by by_lia.
    cbn [andb]. by rewrite orb_true_r.
  - rewrite (starts_with_self (py "https://") w).
    replace (9 <=? length (py "https://") + length w)%nat with true
      by by_lia.
    done.
  - rewrite (starts_with_self (py "www.") w).
    replace (5 <=? length (py "www.") + length w)%nat with true
      by by_lia.
    cbn [andb]. by rewrite !orb_true_r.
Qed.

Lemma scheme_followed_by_blank y scheme d :
  normal_form y ->
  In scheme [py "http://"; py "https://"; py "www."] ->
  contains (scheme ++ [d]) y = true -> d = 32.
Proof.
  intros Hy Hin (a & c & ->)%contains_occurs.
  assert (Hns : forallb non_space scheme = true).
  { by destruct Hin as [<-|[<-|[<-|[]]]]. }
  assert (Hd : is_space d = true).
  { destruct (is_space d) eqn:E; [done|]. exfalso.
    pose proof (nowhere_not_at at_url a _ (nf_urls _ Hy)) as H.
    unfold at_url in H. rewrite <- !app_assoc in H.
    rewrite (word_app_nonspace scheme _ Hns) in H.
    rewrite scheme_then_word in H; [done|done|].
    simpl. rewrite word_cons. unfold non_space. by rewrite E. }
  pose proof (spaced_drop (length (a ++ scheme)) _
                (tidy_spaced _ (nf_tidy _ Hy))) as H.
  replace (a ++ (scheme ++ [d]) ++ c) with ((a ++ scheme) ++ d :: c) in H
    by (by rewrite <- !app_assoc).
  rewrite drop_app_length in H.
  by destruct (spaced_head d c H Hd).
Qed.

(** C2 (amended).  The normalisation of any text holds no two adjacent
    ['>'], no run of three or more ['-'] or ['_'], no two consecutive
    blanks and no character outside 7-bit ASCII; and wherever [http://],
    [https://] or [www.] is left in it and followed by a character, that
    character is a blank. *)
Theorem normalize_output text :
  contains (py ">>") (normalize text) = false /\
  contains (py "---") (normalize text) = false /\
  contains (py "___") (normalize text) = false /\
  (forall scheme d,
     In scheme [py "http://"; py "https://"; py "www."] ->
     contains (scheme ++ [d]) (normalize text) = true -> d = 32) /\
  contains (py "  ") (normalize text) = false /\
  Forall (fun c => c < 128) (normalize text).
Proof.
  pose proof (normalize_normal_form text) as Hy.
  repeat split.
  - apply contains_nowhere, (nf_quotes _ Hy).
  - apply contains_nowhere.
    apply (nowhere_weaken (at_run (N.eqb 45) 3)); [|apply (nf_dashes _ Hy)].
    apply (starts_with_run 45 3).
  - apply contains_nowhere.
    apply (nowhere_weaken (at_run (N.eqb 95) 3));
      [|apply (nf_underscores _ Hy)].
    apply (starts_with_run 95 3).
  - intros scheme d. by apply scheme_followed_by_blank.
  - destruct (contains (py "  ") (normalize text)) eqn:E; [|done].
    apply contains_occurs in E as (a & c & E).
    pose proof (spaced_drop (length a) _ (tidy_spaced _ (nf_tidy _ Hy))) as H.
    rewrite E, drop_app_length in H. done.
  - eapply Forall_impl; [apply (nf_ascii _ Hy)|].
    intros c Hc. by apply N.ltb_lt.
Qed.

Lemma normalize_output_witness :
  contains (py "http://" ++ [32]) (normalize (py "see http:// here")) = true
  /\ contains (py ">>") (normalize (py "a >> b > > c")) = false.
Proof.
  destruct (normalize_output (py "see http:// here"))
    as (_ & _ & _ & Hurl & _).
  assert (H : contains (py "http://" ++ [32])
                (normalize (py "see http:// here")) = true)
    by (vm_compute; reflexivity).
  pose proof (Hurl (py "http://") 32 (or_introl eq_refl) H) as _.
  split; [exact H|].
  by destruct (normalize_output (py "a >> b > > c")) as (Hq & _).
Defined.

(** C2, as stated, fails: a pair of ['>'] one blank apart is produced when
    a dash run between them is replaced, and a scheme with nothing after
    it is not matched by the URL pattern. *)
Lemma normalize_leaves_quote_pair_and_scheme :
  normalize (py ">--->") = py "> >" /\
  normalize (py "see http:// and www. here") = py "see http:// and www. here".
Proof. split; vm_compute; reflexivity. Qed.

(** C3 (amended).  Normalising twice gives the same as normalising once,
    whenever the first normalisation leaves no two ['>'] one blank apart. *)
Theorem normalize_idempotent text :
  contains (py "> >") (normalize text) = false ->
  normalize (normalize text) = normalize text.
Proof. apply normalize_fixed, normalize_normal_form. Qed.

Lemma normalize_idempotent_witness :
  contains (py "> >") (normalize scenario) = false /\
  normalize (normalize scenario) = normalize scenario.
Proof.
  split; [vm_compute; reflexivity|].
  apply normalize_idempotent. vm_compute. reflexivity.
Defined.

(** C3, as stated, fails: the second pass removes the pair of ['>'] the
    first pass has produced. *)
Lemma normalize_not_idempotent :
  normalize (normalize (py ">--->")) <> normalize (py ">--->").
Proof. vm_compute. discriminate. Qed.

(** ** [strip] *)

Lemma length_strip_le s : (length (strip s) <= length s)%nat.
Proof.
  unfold strip, lstrip, rstrip.
  pose proof (length_drop_while_le is_space
                (rev (drop_while is_space (rev s)))) as H1.
  pose proof (length_drop_while_le is_space (rev s)) as H2.
  rewrite length_rev in *. lia.
Qed.

Lemma strip_app_blank s : strip (s ++ py " ") = strip s.
Proof. unfold strip, rstrip. by rewrite rev_app_distr. Qed.

Lemma strip_id s :
  head_is_space s = false -> head_is_space (rev s) = false -> strip s = s.
Proof.
  intros H1 H2. unfold strip, lstrip, rstrip.
  rewrite (drop_while_id (rev s) H2), rev_involutive.
  by apply drop_while_id.
Qed.

(** ** The chunking loop: the length of the chunks *)

Lemma len_app (a b : list N) : len (a ++ b) = (len a + len b)%Z.
Proof. unfold len. rewrite length_app. lia. Qed.

Lemma chunk_loop_within max_length all sentences chunks current :
  (forall s, In s sentences -> In s all) ->
  Forall (within max_length all) chunks ->
  within max_length all current ->
  Forall (within max_length all)
    (fst (chunk_loop max_length sentences chunks current)) /\
  within max_length all (snd (chunk_loop max_length sentences chunks current)).
Proof.
  revert chunks current.
  induction sentences as [|s rest IH]; intros chunks current Hin Hc Hcur;
    [done|].
  simpl.
  assert (Hrest : forall s', In s' rest -> In s' all).
  { intros s' H. apply Hin. by right. }
  destruct (Z.ltb_spec (len current + len s + 1) max_length) as [Hlt|Hge].
  - apply IH; [done|done|]. left.
    rewrite len_app. pose proof (length_strip_le (s ++ py " ")) as H.
    rewrite length_app in H. simpl in H. unfold len in *. lia.
  - apply IH; [done| |].
    + apply Forall_app. split; [done|]. by constructor.
    + destruct (Z.ltb_spec (len s + 1) max_length) as [H|H].
      * left. rewrite len_app. exact H.
      * right. right. exists s. repeat split; [apply Hin; by left|lia].
Qed.

(** C1 (amended).  Every chunk of the chunking phase is shorter than
    [max_length], except a chunk made of one sentence and the blank after
    it when that sentence alone has [max_length - 1] characters or more
    (and, for a [max_length] that is not positive, the empty first chunk). *)
Theorem chunk_length text max_length :
  Forall (within max_length (sentences_of text)) (chunk text max_length).
Proof.
  unfold chunk.
  pose proof (chunk_loop_within max_length (sentences_of text)
                (sentences_of text) [] []) as H.
  destruct (chunk_loop max_length (sentences_of text) [] [])
    as [chunks current].
  destruct H as [H1 H2]; [done|done| |].
  { destruct (Z.ltb_spec 0 max_length); [by left|by right; left]. }
  simpl in *. destruct current; [done|].
  apply Forall_app. split; [done|]. by constructor.
Qed.

(** C1, as stated, fails: a sentence one character short of [max_length]
    is not oversized, and its chunk has [max_length] characters. *)
Lemma chunk_reaches_max_length :
  chunk_text (py "abcd") 5 = [[]; py "abcd "] /\
  len (py "abcd ") = 5%Z /\
  sentences_of (normalize (py "abcd")) = [py "abcd"] /\
  len (py "abcd") = 4%Z.
Proof. repeat split; vm_compute; reflexivity. Qed.

(** The second scenario of the specification: no chunk reaches 20
    characters and no sentence is cut. *)
Example four_sentences :
  chunk_text (py "One. Two. Three. Four.") 20
  = [py "One.Two.Three."; py "Four. "].
Proof. vm_compute. reflexivity. Qed.

(** C5.  On the scenario the normalisation gives the expected text, and
    the chunking gives one chunk in which the two sentences are joined
    without the blank between them. *)
Theorem scenario_chunks :
  normalize scenario = py "Hello world. This is a test." /\
  chunk_text scenario 1000 = [py "Hello world.This is a test."].
Proof. split; vm_compute; reflexivity. Qed.

(** ** The sentences of a tidy text *)

Lemma split_scan_ext m1 m2 k b s :
  (forall b' s', m1 b' s' = m2 b' s') ->
  split_scan m1 k b s = split_scan m2 k b s.
Proof.
  intros H. revert k b. induction s as [|c t IH]; intros k b; [done|].
  simpl. destruct k as [|k]; [|apply IH].
  rewrite H. destruct (m2 b (c :: t)) as [[|n]|]; by rewrite IH.
Qed.

Lemma sentences_of_unfold text :
  sentences_of text = split_scan gap_len O None text.
Proof. apply split_scan_ext. intros. apply match_len_gap. Qed.

Lemma split_scan_nonempty m k b s : split_scan m k b s <> [].
Proof.
  revert k b. induction s as [|c t IH]; intros k b; [done|].
  simpl. destruct k as [|k]; [|apply IH].
  destruct (m b (c :: t)) as [[|n]|]; try done;
    by destruct (split_scan m O (Some c) t).
Qed.

Lemma terminator_not_space c : is_terminator c = true -> is_space c = false.
Proof.
  unfold is_terminator.
  intros [[H|H]%orb_true_iff|H]%orb_true_iff; by apply N.eqb_eq in H as ->.
Qed.

(** In a tidy text a sentence gap is one blank after a terminator. *)
Lemma gap_in_spaced b c t n :
  spaced (c :: t) = true -> gap_len b (c :: t) = Some (S n) ->
  n = O /\ c = 32 /\ exists e, b = Some e /\ is_terminator e = true.
Proof.
  intros Hs. unfold gap_len. destruct b as [e|]; [|done].
  destruct (is_terminator e) eqn:Ee; [|done].
  destruct (Nat.leb_spec 1 (run_len (N.eqb 32) (c :: t))) as [Hge|]; [|done].
  intros [= Hn]. unfold run_len in *. simpl in *.
  destruct (N.eqb_spec 32 c) as [<-|]; [|simpl in Hge; lia].
  destruct (spaced_head 32 t Hs eq_refl) as [_ Ht].
  destruct t as [|d t]; simpl in *.
  - split; [lia|eauto].
  - destruct (N.eqb_spec 32 d) as [<-|]; [done|]. simpl in Hn.
    split; [lia|eauto].
Qed.

Lemma head_is_space_rev_cons c t :
  t <> [] -> head_is_space (rev (c :: t)) = head_is_space (rev t).
Proof.
  intros Ht. simpl. apply head_is_space_app.
  destruct t; [done|]. simpl. by destruct (rev t).
Qed.

Lemma split_scan_trimmed s b :
  spaced s = true -> head_is_space (rev s) = false ->
  Forall (fun p => head_is_space (rev p) = false) (split_scan gap_len O b s)
  /\ Forall (fun p => head_is_space p = false)
       (tail (split_scan gap_len O b s))
  /\ (head_is_space s = false ->
      head_is_space (hd [] (split_scan gap_len O b s)) = false)
  /\ (hd [] (split_scan gap_len O b s) = [] ->
      s = [] \/ exists n, gap_len b s = Some (S n)).
Proof.
  revert b. induction s as [|c t IH]; intros b Hs Hlast.
  { simpl. repeat split; try done; auto. }
  assert (Hst : spaced t = true).
  { rewrite spaced_cons in Hs. by apply andb_true_iff in Hs as [_ Hs]. }
  assert (Hlt : head_is_space (rev t) = false).
  { destruct t as [|d t']; [done|].
    by rewrite <- (head_is_space_rev_cons c (d :: t')). }
  specialize (IH (Some c) Hst Hlt) as (IH1 & IH2 & IH3 & IH4).
  pose proof (split_scan_nonempty gap_len O (Some c) t) as Hne.
  cbn [split_scan].
  destruct (gap_len b (c :: t)) as [[|n]|] eqn:Em.
  - (* an empty match cannot happen *)
    exfalso. unfold gap_len in Em. destruct b as [e|]; [|done].
    destruct (is_terminator e); [|done].
    destruct (Nat.leb_spec 1 (run_len (N.eqb 32) (c :: t))); [|done].
    injection Em as Em. lia.
  - destruct (gap_in_spaced b c t n Hs Em) as (-> & -> & e & -> & He).
    destruct (spaced_head 32 t Hs eq_refl) as [_ Ht].
    destruct (split_scan gap_len O (Some 32) t) as [|h r] eqn:El; [done|].
    simpl in *. repeat split.
    + by constructor.
    + constructor; [by apply IH3|done].
    + eauto.
  - destruct (split_scan gap_len O (Some c) t) as [|h r] eqn:El; [done|].
    simpl in *. inversion IH1 as [|? ? Hh Hr]; subst. repeat split.
    + constructor; [|done].
      destruct h as [|d h'].
      * simpl. destruct (IH4 eq_refl) as [->|[n Hn]].
        -- simpl in Hlast. by destruct (is_space c).
        -- unfold gap_len in Hn. destruct (is_terminator c) eqn:Ec; [|done].
           by rewrite (terminator_not_space c Ec).
      * change (rev (c :: d :: h')) with (rev (d :: h') ++ [c]).
        rewrite head_is_space_app; [done|].
        simpl. by destruct (rev h').
    + done.
    + done.
    + done.
Qed.

Lemma sentences_trimmed y :
  tidy y = true -> Forall (fun s => strip s = s) (sentences_of y).
Proof.
  intros Ht. rewrite sentences_of_unfold.
  pose proof (tidy_spaced y Ht) as Hs.
  unfold tidy in Ht. apply andb_true_iff in Ht as [[_ H1]%andb_true_iff H2].
  apply negb_true_iff in H1, H2.
  destruct (split_scan_trimmed y None Hs H2) as (F1 & F2 & F3 & _).
  specialize (F3 H1).
  destruct (split_scan gap_len O None y) as [|h r]; [done|]. simpl in *.
  inversion F1 as [|? ? Hh Hr]; subst.
  constructor; [by apply strip_id|].
  apply Forall_forall. intros p Hp.
  apply strip_id.
  - by apply (proj1 (Forall_forall _ _) F2).
  - by apply (proj1 (Forall_forall _ _) Hr).
Qed.

(** ** The chunking loop: the sentences in the chunks *)

Lemma glued_snoc group chunk s :
  glued group chunk -> glued (group ++ [s]) (chunk ++ s).
Proof.
  intros [->|(first & others & -> & ->)].
  - left. rewrite concat_app. simpl. by rewrite app_nil_r.
  - right. exists first, (others ++ [s]). split; [done|].
    rewrite concat_app. simpl. by rewrite app_nil_r, <- !app_assoc.
Qed.

Lemma glued_single s : glued [s] (s ++ py " ").
Proof. right. exists s, []. split; reflexivity. Qed.

Lemma chunk_loop_groups max_length sentences chunks current groups group :
  Forall (fun s => strip s = s) sentences ->
  Forall2 glued groups chunks -> glued group current ->
  exists groups' group',
    concat (groups' ++ [group']) = concat (groups ++ [group]) ++ sentences /\
    Forall2 glued groups'
      (fst (chunk_loop max_length sentences chunks current)) /\
    glued group' (snd (chunk_loop max_length sentences chunks current)).
Proof.
  revert chunks current groups group.
  induction sentences as [|s rest IH];
    intros chunks current groups group Hs Hg Hc.
  { exists groups, group. by rewrite app_nil_r. }
  inversion Hs as [|? ? Hstrip Hrest]; subst. simpl.
  destruct (len current + len s + 1 <? max_length)%Z.
  - rewrite strip_app_blank, Hstrip.
    destruct (IH chunks (current ++ s) groups (group ++ [s]))
      as (gs & g & E & H1 & H2); [done|done|by apply glued_snoc|].
    exists gs, g. split; [|done].
    rewrite E, !concat_app. simpl. by rewrite !app_nil_r, <- !app_assoc.
  - destruct (IH (chunks ++ [current]) (s ++ py " ") (groups ++ [group]) [s])
      as (gs & g & E & H1 & H2); [done| |apply glued_single|].
    { apply Forall2_app; [done|]. by constructor. }
    exists gs, g. split; [|done].
    rewrite E, !concat_app. simpl. by rewrite !app_nil_r, <- !app_assoc.
Qed.

Lemma unspace_app (a b : list N) : unspace (a ++ b) = unspace a ++ unspace b.
Proof. apply List.filter_app. Qed.

Lemma unspace_glued group chunk :
  glued group chunk -> unspace chunk = unspace (concat group).
Proof.
  intros [->|(first & others & -> & ->)]; [done|].
  simpl. by rewrite !unspace_app.
Qed.

Lemma unspace_groups groups chunks :
  Forall2 glued groups chunks ->
  unspace (concat chunks) = unspace (concat (concat groups)).
Proof.
  induction 1 as [|g c gs cs Hg _ IH]; [done|].
  simpl. by rewrite concat_app, !unspace_app, IH, (unspace_glued g c Hg).
Qed.

(** C6.  The chunks of the normalised text are its sentences, each exactly
    once and in order: the sentences fall into consecutive groups, one per
    chunk, and a chunk is the sentences of its group glued together, with
    the inserted blank after the first.  ([pad] accounts for the empty
    chunk line 42 drops.)  So with the blanks left out, the chunks put
    together are the sentences put together. *)
Theorem chunks_keep_sentences text max_length :
  (exists groups pad,
     concat groups = sentences_of (normalize text) /\
     Forall2 glued groups (chunk_text text max_length ++ pad) /\
     (pad = [] \/ pad = [[]])) /\
  unspace (concat (chunk_text text max_length))
  = unspace (concat (sentences_of (normalize text))).
Proof.
  assert (H : exists groups pad,
     concat groups = sentences_of (normalize text) /\
     Forall2 glued groups (chunk_text text max_length ++ pad) /\
     (pad = [] \/ pad = [[]])).
  { unfold chunk_text, chunk.
    pose proof (sentences_trimmed _ (nf_tidy _ (normalize_normal_form text)))
      as Ht.
    destruct (chunk_loop_groups max_length (sentences_of (normalize text))
                [] [] [] [] Ht) as (gs & g & E & H1 & H2);
      [constructor|by left|].
    destruct (chunk_loop max_length (sentences_of (normalize text)) [] [])
      as [chunks current].
    simpl in *. destruct current as [|c current].
    - exists (gs ++ [g]), [[]]. split; [done|]. split; [|by right].
      apply Forall2_app; [done|]. by constructor.
    - exists (gs ++ [g]), []. rewrite app_nil_r. split; [done|].
      split; [|by left]. apply Forall2_app; [done|]. by constructor. }
  split; [exact H|].
  destruct H as (groups & pad & E & HF & Hpad).
  rewrite <- E, <- (unspace_groups _ _ HF), concat_app, unspace_app.
  destruct Hpad as [->| ->]; simpl; by rewrite app_nil_r.
Qed.

(** ** The empty first chunk *)

Lemma chunk_loop_fst_prefix max_length sentences chunks current :
  chunks `prefix_of` fst (chunk_loop max_length sentences chunks current).
Proof.
  revert chunks current.
  induction sentences as [|s rest IH]; intros chunks current; [done|].
  simpl. destruct (len current + len s + 1 <? max_length)%Z; [apply IH|].
  etrans; [|apply IH]. by apply prefix_app_r.
Qed.

Lemma chunk_first_empty text max_length s rest :
  sentences_of text = s :: rest -> (max_length - 1 <= len s)%Z ->
  exists others, chunk text max_length = [] :: others.
Proof.
  intros E Hlen. unfold chunk. rewrite E. simpl.
  replace (len [] + len s + 1 <? max_length)%Z with false
    by by_lia.
  pose proof (chunk_loop_fst_prefix max_length rest [[]] (s ++ py " "))
    as [k Hk].
  destruct (chunk_loop max_length rest [[]] (s ++ py " "))
    as [chunks current].
  simpl in Hk. subst chunks.
  destruct current; simpl; eauto.
Qed.


(** ** The vault *)

Lemma set_files_same w : set_files (files w) w = w.
Proof. by destruct w. Qed.

Lemma write_chunks_appends path chunks w old :
  files w !! path = Some old ->
  write_chunks path chunks w =
  (inr tt,
   set_files (<[path := old ++ concat (map vault_line chunks)]> (files w)) w).
Proof.
  revert w old. induction chunks as [|chunk rest IH]; intros w old Hold.
  - simpl. rewrite app_nil_r, insert_id by done. by rewrite set_files_same.
  - cbn [write_chunks]. unfold bind, file_write. rewrite Hold. cbn [default].
    erewrite IH; [|apply lookup_insert_eq].
    cbn [files set_files]. rewrite insert_insert_eq.
    cbn [map concat]. unfold vault_line at 2.
    by rewrite <- !app_assoc.
Qed.

Lemma save_chunks_to_vault_spec chunks w path :
  environ w !! py "VAULT_FILENAME" = Some path ->
  save_chunks_to_vault chunks w =
  (inr tt,
   set_files (<[path := default [] (files w !! path)
                        ++ concat (map vault_line chunks)]> (files w)) w).
Proof.
  intros Hpath. unfold save_chunks_to_vault, bind, getenv. rewrite Hpath.
  unfold open_append, file_write. rewrite app_nil_r.
  erewrite write_chunks_appends; [|apply lookup_insert_eq].
  cbn [files set_files]. by rewrite insert_insert_eq.
Qed.

Lemma lines_app l rest :
  ~ In 10 l -> lines (l ++ newline ++ rest) = l :: lines rest.
Proof.
  induction l as [|c l IH]; intros Hl; [done|].
  cbn [app lines]. destruct (N.eqb_spec c 10) as [->|_].
  - destruct Hl. by left.
  - rewrite IH; [done|]. intros H. apply Hl. by right.
Qed.

Lemma lines_vault chunks :
  Forall (fun chunk => ~ In 10 (strip chunk)) chunks ->
  lines (concat (map vault_line chunks)) = map strip chunks.
Proof.
  induction 1 as [|chunk rest Hc _ IH]; [done|].
  cbn [map concat]. unfold vault_line at 1.
  by rewrite <- app_assoc, lines_app, IH.
Qed.

(** C9.  [save_chunks_to_vault] appends to the vault file, for each chunk
    in order, the chunk without its surrounding white space and a newline;
    what the file held before stays in front, and nothing else changes.
    When the stripped chunks hold no newline, these are as many lines as
    there are chunks. *)
Theorem save_chunks_to_vault_appends chunks w path :
  environ w !! py "VAULT_FILENAME" = Some path ->
  save_chunks_to_vault chunks w =
  (inr tt,
   set_files (<[path := default [] (files w !! path)
                        ++ concat (map (fun chunk => strip chunk ++ newline)
                                       chunks)]> (files w)) w)
  /\ (Forall (fun chunk => ~ In 10 (strip chunk)) chunks ->
      lines (concat (map (fun chunk => strip chunk ++ newline) chunks))
      = map strip chunks).
Proof.
  intros Hpath. split.
  - by apply save_chunks_to_vault_spec.
  - apply lines_vault.
Qed.

Lemma save_chunks_to_vault_appends_witness :
  environ ready_world !! py "VAULT_FILENAME" = Some (py "vault.txt") /\
  files (snd (save_chunks_to_vault [py " One. "; py "Two."] ready_world))
    !! py "vault.txt"
  = Some (py "One." ++ newline ++ py "Two." ++ newline).
Proof.
  assert (H : environ ready_world !! py "VAULT_FILENAME"
              = Some (py "vault.txt")) by (vm_compute; reflexivity).
  split; [exact H|].
  destruct (save_chunks_to_vault_appends [py " One. "; py "Two."]
              ready_world (py "vault.txt") H) as [-> _].
  vm_compute. reflexivity.
Defined.

(** C10.  When the first sentence of the normalised text has
    [max_length - 1] characters or more, the first chunk of [chunk_text]
    is the empty string, and [save_chunks_to_vault] writes an empty line
    for it. *)
Theorem empty_first_chunk text max_length s rest path w :
  sentences_of (normalize text) = s :: rest ->
  (max_length - 1 <= len s)%Z ->
  environ w !! py "VAULT_FILENAME" = Some path ->
  exists others,
    chunk_text text max_length = [] :: others /\
    save_chunks_to_vault (chunk_text text max_length) w =
    (inr tt,
     set_files (<[path := default [] (files w !! path) ++ newline
                          ++ concat (map (fun chunk => strip chunk ++ newline)
                                         others)]> (files w)) w).
Proof.
  intros Hs Hlen Hpath.
  destruct (chunk_first_empty (normalize text) max_length s rest Hs Hlen)
    as [others Ho].
  exists others. unfold chunk_text. rewrite Ho. split; [done|].
  by rewrite (save_chunks_to_vault_spec _ w path Hpath).
Qed.

Lemma empty_first_chunk_witness :
  exists others,
    chunk_text (py "abcd") 5 = [] :: others /\
    save_chunks_to_vault (chunk_text (py "abcd") 5) ready_world =
    (inr tt,
     set_files (<[py "vault.txt" :=
                    default [] (files ready_world !! py "vault.txt")
                    ++ newline
                    ++ concat (map (fun chunk => strip chunk ++ newline)
                                   others)]> (files ready_world))
               ready_world).
Proof.
  apply (empty_first_chunk (py "abcd") 5 (py "abcd") []).
  - vm_compute. reflexivity.
  - vm_compute. discriminate.
  - vm_compute. reflexivity.
Defined.

(** ** Decoding the body *)

(** The multipart branch decodes with [errors='ignore'] and never raises
    a decoding error. *)
Lemma collect_text_no_decode_error codecs get_text parts text_content :
  collect_text codecs get_text parts text_content <> inl UnicodeDecodeError.
Proof.
  revert text_content. induction parts as [|part rest IH]; intros acc; [done|].
  cbn [collect_text].
  assert (H : decode_part codecs part Ignore <> inl UnicodeDecodeError).
  { unfold decode_part, bytes_decode.
    destruct (get_payload part); [|done].
    by destruct (codecs _). }
  destruct (str_eqb (get_content_type part) (py "text/plain")).
  { by destruct (decode_part codecs part Ignore) as [e|text]; [|apply IH]. }
  destruct (str_eqb (get_content_type part) (py "text/html")); [|apply IH].
  by destruct (decode_part codecs part Ignore) as [e|text]; [|apply IH].
Qed.

(** A body that is not multipart is decoded strictly, whatever the codec:
    when its bytes cannot be decoded the error is the result. *)
Lemma strict_branch_raises codecs get_text h data c :
  maintype h = py "text" -> subtype h = py "plain" ->
  codecs (default (py "utf-8") (charset h)) = Some c ->
  decode_strict c data = None ->
  text_content_of codecs get_text (Single h data) = inl UnicodeDecodeError.
Proof.
  intros Hm Hs Hc Hd.
  unfold text_content_of, get_content_type, decode_part, bytes_decode,
    get_content_charset.
  cbn [is_multipart header_of get_payload]. rewrite Hm, Hs, Hc, Hd.
  reflexivity.
Qed.

(** An encoding the registry does not know raises in either branch:
    [errors='ignore'] is about undecodable bytes only. *)
Lemma unknown_charset_raises codecs part errors data :
  get_payload part = Some data ->
  codecs (get_content_charset part (py "utf-8")) = None ->
  decode_part codecs part errors = inl LookupError.
Proof. intros Hp Hc. unfold decode_part, bytes_decode. by rewrite Hp, Hc. Qed.

(** C4.  In the branch of a message that is not multipart the body is
    decoded strictly: on a [us-ascii] body with the byte [0xE9] the
    decoding error is raised, reaches the caller of
    [save_plain_text_content], and nothing is written; the same part inside
    a multipart message is decoded with the byte dropped. *)
Theorem strict_decode_propagates :
  text_content_of sample_codecs (fun html => html) accented_body
    = inl UnicodeDecodeError /\
  text_content_of sample_codecs (fun html => html) accented_in_multipart
    = inr (py "Caf") /\
  save_plain_text_content sample_codecs (fun html => html)
    (fun _ => accented_body) [] (py "1") ready_world
    = (inl UnicodeDecodeError, ready_world).
Proof. repeat split; vm_compute; reflexivity. Qed.

(** ** Attachments *)

Lemma str_eqb_eq a b : str_eqb a b = true <-> a = b.
Proof.
  revert b. induction a as [|c a IH]; intros [|d b]; simpl; try done.
  rewrite andb_true_iff, N.eqb_eq, IH. split; [by intros [-> ->]|].
  by intros [= -> ->].
Qed.

Lemma os_path_join_plain a b c :
  head_is_slash b = false -> last_is_slash (a ++ [c]) = false ->
  os_path_join (a ++ [c]) b = (a ++ [c]) ++ py "/" ++ b.
Proof.
  unfold os_path_join, head_is_slash, last_is_slash. intros -> ->.
  by destruct (a ++ [c]) eqn:E; [destruct a|].
Qed.

(** C7.  [save_attachment] does nothing for a part whose main type is
    [multipart] or that has no [Content-Disposition] header, whatever its
    file name; it touches the files only for a part that, besides, declares
    a file name that is not empty, and then only the file
    [os.path.join(folder_path, email_id + "_" + filename)], which receives
    the payload; for a folder without a final [/] and a name that does
    not start with [/] that path is [folder_path/email_id_filename]. *)
Theorem save_attachment_rule part email_id folder_path w :
  (get_content_maintype part = py "multipart"
   \/ content_disposition (header_of part) = None ->
   save_attachment part email_id folder_path w = (inr tt, w))
  /\
  (truthy (filename (header_of part)) = false ->
   save_attachment part email_id folder_path w = (inr tt, w))
  /\
  (files (snd (save_attachment part email_id folder_path w)) <> files w ->
   get_content_maintype part <> py "multipart" /\
   content_disposition (header_of part) <> None /\
   exists name,
     filename (header_of part) = Some name /\ name <> [] /\
     forall p,
       p <> os_path_join folder_path (email_id ++ py "_" ++ name) ->
       files (snd (save_attachment part email_id folder_path w)) !! p
       = files w !! p)
  /\
  (forall h data disposition name,
     part = Single h data ->
     maintype h <> py "multipart" ->
     content_disposition h = Some disposition ->
     filename h = Some name -> name <> [] ->
     files (snd (save_attachment part email_id folder_path w))
       !! os_path_join folder_path (email_id ++ py "_" ++ name)
     = Some data)
  /\
  (forall name,
     head_is_slash (email_id ++ py "_" ++ name) = false ->
     folder_path <> [] -> last_is_slash folder_path = false ->
     os_path_join folder_path (email_id ++ py "_" ++ name)
     = folder_path ++ py "/" ++ email_id ++ py "_" ++ name).
Proof.
  assert (Hjoin : forall name,
     head_is_slash (email_id ++ py "_" ++ name) = false ->
     folder_path <> [] -> last_is_slash folder_path = false ->
     os_path_join folder_path (email_id ++ py "_" ++ name)
     = folder_path ++ py "/" ++ email_id ++ py "_" ++ name).
  { intros name Hh Hf Hl. destruct (exists_last Hf) as (a & c & ->).
    by apply os_path_join_plain. }
  unfold save_attachment.
  destruct (str_eqb (get_content_maintype part) (py "multipart")) eqn:Em.
  { apply str_eqb_eq in Em. repeat split; try done.
    intros h data d name -> Hm. by destruct Hm. }
  assert (Hm : get_content_maintype part <> py "multipart").
  { intros H%str_eqb_eq. by rewrite H in Em. }
  split; [|split; [|split; [|split]]].
  - intros [H|H]; [done|]. by rewrite H.
  - intros H. destruct (content_disposition (header_of part)); [|done].
    by destruct (filename (header_of part)) as [[|c name]|].
  - destruct (content_disposition (header_of part)) as [d|]; [|done].
    destruct (filename (header_of part)) as [[|c name]|]; try done.
    intros _. split; [done|]. split; [done|].
    exists (c :: name). split; [done|]. split; [done|].
    intros p Hp. unfold bind, open_truncate, file_write, print, raise.
    destruct (get_payload part); cbn [snd files set_files set_stdout];
      by rewrite ?lookup_insert_ne.
  - intros h data d name -> _ Hd Hn Hne. cbn [header_of get_payload].
    rewrite Hd, Hn. destruct name as [|c name]; [done|].
    unfold bind, open_truncate, file_write, print.
    cbn [snd files set_files set_stdout].
    rewrite !lookup_insert_eq. done.
  - exact Hjoin.
Qed.

Lemma save_attachment_rule_witness :
  save_attachment inline_named_part (py "7") (py "/home/user/attachments")
    ready_world = (inr tt, ready_world) /\
  files (snd (save_attachment report_part (py "7")
                (py "/home/user/attachments") ready_world))
    !! py "/home/user/attachments/7_report.pdf"
  = Some [37; 80; 68; 70].
Proof.
  split.
  - destruct (save_attachment_rule inline_named_part (py "7")
                (py "/home/user/attachments") ready_world) as (Hskip & _).
    apply Hskip. by right.
  - destruct (save_attachment_rule report_part (py "7")
                (py "/home/user/attachments") ready_world)
      as (_ & _ & _ & Hfile & Hpath).
    specialize (Hfile _ _ (py "attachment; filename=report.pdf")
                  (py "report.pdf") eq_refl).
    rewrite (Hpath (py "report.pdf")) in Hfile by done.
    apply Hfile; done.
Defined.

(** ** The command line *)

Lemma check_env_ready w :
  env_ready w = true -> check_env w = (inr (Some true), w).
Proof.
  unfold env_ready, check_env, bind, getenv.
  intros [[H1 H2]%andb_true_iff H3]%andb_true_iff.
  rewrite H1. cbn [negb]. cbv beta. rewrite H2. cbn [negb]. cbv beta.
  by rewrite H3.
Qed.

Lemma check_env_not_ready w :
  env_ready w = false ->
  exists r line,
    check_env w = (inr r, set_stdout (stdout w ++ [line]) w) /\
    r <> Some true.
Proof.
  unfold env_ready, check_env, bind, getenv, print, ret.
  destruct (truthy (environ w !! py "VAULT_FILENAME"));
    cbn [negb andb]; cbv beta; [|by eauto].
  destruct (truthy (environ w !! py "GMAIL_USERNAME"));
    cbn [negb andb]; cbv beta; [|by eauto].
  destruct (truthy (environ w !! py "GMAIL_PASSWORD"));
    cbn [negb andb]; cbv beta; [done|by eauto].
Qed.

(** C8 (amended).  When one of the two date arguments is given and not
    empty without the other, or both are and the date parser refuses one
    of them, [main] returns without any network activity and without
    touching a file; with the environment in place, what it prints is the
    usage error. *)
Theorem main_stops_before_the_network
    codecs get_text parsebytes message_from_bytes
    (date : Type) (strptime : list N -> list N + date) strftime server a w :
  usage_violation strptime a ->
  let run := main codecs get_text parsebytes message_from_bytes date
               strptime strftime server a w in
  fst run = inr tt /\
  network (snd run) = network w /\
  files (snd run) = files w /\
  (env_ready w = true ->
   stdout (snd run) = stdout w ++ [both_dates_error] \/
   exists e, stdout (snd run) = stdout w ++ [date_error ++ e]).
Proof.
  intros Hv. unfold main, bind. cbv zeta.
  destruct (env_ready w) eqn:Hr.
  - rewrite (check_env_ready w Hr).
    destruct Hv as [Hv|(H1 & H2 & Hv)].
    + destruct (truthy (startdate a)), (truthy (enddate a)); try done;
        cbn; eauto.
    + rewrite H1, H2. cbn [andb].
      destruct (strptime (default [] (startdate a))) as [e1|d1] eqn:E1.
      { cbn. eauto 6. }
      destruct (strptime (default [] (enddate a))) as [e2|d2] eqn:E2.
      { cbn. eauto 6. }
      destruct Hv as [[e He]|[e He]]; congruence.
  - destruct (check_env_not_ready w Hr) as (r & line & -> & Hne).
    destruct r as [[|]|]; try done; cbn; done.
Qed.

Lemma main_stops_before_the_network_witness :
  let a := Args [] (Some (py "01.02.2024")) None in
  usage_violation (fun _ : list N => @inl (list N) unit (py "bad date")) a /\
  network (snd (sample_main a ready_world)) = [] /\
  stdout (snd (sample_main a ready_world)) = [both_dates_error].
Proof.
  cbv zeta.
  assert (Hv : usage_violation
                 (fun _ : list N => @inl (list N) unit (py "bad date"))
                 (Args [] (Some (py "01.02.2024")) None)).
  { left. vm_compute. discriminate. }
  split; [exact Hv|].
  pose proof (main_stops_before_the_network sample_codecs (fun html => html)
                (fun _ => accented_body) (fun _ => accented_body) unit
                (fun _ => inl (py "bad date")) (fun _ => []) quiet_server
                (Args [] (Some (py "01.02.2024")) None) ready_world Hv)
    as (_ & Hnet & _ & Hout).
  split; [exact Hnet|].
  destruct (Hout eq_refl) as [H|[e H]]; [exact H|].
  vm_compute in H. discriminate H.
Defined.

(** C8, as stated, fails: a date argument given as the empty string counts
    as supplied on the command line but as absent in the tests of [main];
    with one such argument, or with two, [main] goes on to the server. *)
Lemma empty_date_reaches_the_server :
  network (snd (sample_main (Args [] (Some []) None) ready_world))
  = [NetConnect (py "imap.gmail.com");
     NetLogin (Some (py "user")) (Some (py "secret"));
     NetSelect (py "inbox"); NetSearch (py "ALL"); NetLogout] /\
  network (snd (sample_main (Args [] (Some []) (Some [])) ready_world))
  = [NetConnect (py "imap.gmail.com");
     NetLogin (Some (py "user")) (Some (py "secret"));
     NetSelect (py "inbox"); NetSearch (py "ALL"); NetLogout].
Proof. split; vm_compute; reflexivity. Qed.

(** * Further properties *)

(** ** The normalised text *)

Lemma spaced_only_blanks s c :
  spaced s = true -> In c s -> is_space c = true -> c = 32.
Proof.
  induction s as [|d t IH]; [done|]. intros Hs [->|Hin] Hc.
  - by destruct (spaced_head c t Hs Hc).
  - apply IH; [|done|done]. rewrite spaced_cons in Hs.
    by apply andb_true_iff in Hs as [_ Hs].
Qed.

(** X1.  The normalised text has no white space at either end, and the
    only white space character left in it is the blank: no tab, no line
    break. *)
Theorem normalize_trimmed text :
  strip (normalize text) = normalize text /\
  (forall c, In c (normalize text) -> is_space c = true -> c = 32).
Proof.
  pose proof (nf_tidy _ (normalize_normal_form text)) as Ht. split.
  - by apply strip_tidy.
  - intros c. apply spaced_only_blanks. by apply tidy_spaced.
Qed.

(** X2.  On a normalised text every step of lines 15 to 29 but the quote
    substitution of line 18 changes nothing. *)
Theorem later_steps_stable text :
  encode_ascii_ignore (normalize text) = normalize text /\
  re_sub re_dashes (py " ") (normalize text) = normalize text /\
  re_sub re_underscores (py " ") (normalize text) = normalize text /\
  re_sub re_spaces2 (py " ") (normalize text) = normalize text /\
  re_sub re_url [] (normalize text) = normalize text /\
  re_sub re_spaces1 (py " ") (normalize text) = normalize text.
Proof.
  destruct (normalize_normal_form text) as [Ha Ht Hq Hd Hu Hl].
  pose proof (tidy_spaced _ Ht) as Hs.
  unfold re_dashes, re_underscores, re_spaces2, re_spaces1, ws, Chr.
  rewrite !re_sub_run, re_sub_url.
  repeat split.
  - by apply encode_ascii_id.
  - apply sub_run_id; [lia|done].
  - apply sub_run_id; [lia|done].
  - apply sub_run_id; [lia|by apply spaced_nowhere2].
  - by apply sub_url_id.
  - by apply sub_spaces1_id.
Qed.

Lemma drop_while_all p s :
  Forall (fun c => p c = true) s -> drop_while p s = [].
Proof. induction 1 as [|c t Hc _ IH]; [done|]. simpl. by rewrite Hc. Qed.

Lemma strip_all_space s :
  Forall (fun c => is_space c = true) s -> strip s = [].
Proof.
  intros H. unfold strip, lstrip, rstrip.
  rewrite (drop_while_all is_space (rev s)); [done|]. by apply Forall_rev.
Qed.

(** X3.  A text made of white space and of characters outside ASCII only
    is normalised to the empty text. *)
Theorem normalize_blank text :
  Forall (fun c => is_space c = true \/ is_ascii c = false) text ->
  normalize text = [].
Proof.
  intros H. rewrite normalize_unfold. apply strip_all_space.
  repeat (apply sub_scan_Forall; [by repeat constructor|]).
  unfold encode_ascii_ignore. apply Forall_forall.
  intros c Hc%list_elem_of_In. apply List.filter_In in Hc as [Hin Hc].
  apply list_elem_of_In in Hin.
  destruct (proj1 (Forall_forall _ _) H c Hin) as [Hs|Hn]; [done|].
  by rewrite Hn in Hc.
Qed.

Lemma normalize_blank_witness :
  normalize ([32; 9; 10; 233; 160] ++ py "  ") = [].
Proof. apply normalize_blank. repeat constructor; by vm_compute; auto. Defined.

(** ** Sentences *)

Lemma join_push_head sep c l :
  l <> [] -> join sep (push_head c l) = c :: join sep l.
Proof. destruct l as [|h [|h' r]]; done. Qed.

Lemma join_cons sep x l : l <> [] -> join sep (x :: l) = x ++ sep ++ join sep l.
Proof. by destruct l. Qed.

Lemma split_scan_join s b :
  spaced s = true -> join (py " ") (split_scan gap_len O b s) = s.
Proof.
  revert b. induction s as [|c t IH]; intros b Hs; [done|].
  assert (Hst : spaced t = true).
  { rewrite spaced_cons in Hs. by apply andb_true_iff in Hs as [_ Hs]. }
  cbn [split_scan].
  destruct (gap_len b (c :: t)) as [[|n]|] eqn:Em.
  - rewrite join_push_head by apply split_scan_nonempty. by rewrite IH.
  - destruct (gap_in_spaced b c t n Hs Em) as (-> & -> & _).
    rewrite join_cons by apply split_scan_nonempty. by rewrite IH.
  - rewrite join_push_head by apply split_scan_nonempty. by rewrite IH.
Qed.

Lemma join_sentences_of y :
  tidy y = true -> join (py " ") (sentences_of y) = y.
Proof.
  intros Ht. rewrite sentences_of_unfold. by apply split_scan_join, tidy_spaced.
Qed.

Lemma normalize_tidy text : tidy (normalize text) = true.
Proof. apply (nf_tidy _ (normalize_normal_form text)). Qed.

(** X4.  Joining the sentences of the normalised text with single blanks
    gives the normalised text back: the split of line 32 drops nothing but
    the blank after a terminator. *)
Theorem sentences_join text :
  join (py " ") (sentences_of (normalize text)) = normalize text.
Proof. apply join_sentences_of, normalize_tidy. Qed.

Lemma first_sentence_nonempty y s rest :
  tidy y = true -> y <> [] -> sentences_of y = s :: rest -> s <> [].
Proof.
  intros Ht Hy. rewrite sentences_of_unfold. intros E ->.
  pose proof (tidy_spaced y Ht) as Hs.
  unfold tidy in Ht. apply andb_true_iff in Ht as [_ H2].
  apply negb_true_iff in H2.
  destruct (split_scan_trimmed y None Hs H2) as (_ & _ & _ & F4).
  rewrite E in F4. by destruct (F4 eq_refl) as [?|[n Hn]].
Qed.

(** ** Chunks *)

Lemma chunk_loop_nonempty max_length sentences chunks current :
  chunks <> [] \/ current <> [] ->
  fst (chunk_loop max_length sentences chunks current) <> [] \/
  snd (chunk_loop max_length sentences chunks current) <> [].
Proof.
  revert chunks current.
  induction sentences as [|s rest IH]; intros chunks current H; [done|].
  simpl. destruct (len current + len s + 1 <? max_length)%Z; apply IH.
  - destruct H as [H|H]; [by left|right]. by destruct current.
  - left. by destruct chunks.
Qed.

Lemma chunk_nonempty max_length s rest :
  s <> [] -> strip s = s ->
  (let '(chunks, current_chunk) := chunk_loop max_length (s :: rest) [] [] in
   match current_chunk with
   | [] => chunks
   | _ => chunks ++ [current_chunk]
   end) <> [].
Proof.
  intros Hs Hstrip. cbn [chunk_loop].
  rewrite strip_app_blank, Hstrip, !app_nil_l.
  assert (H : forall chunks current,
    chunks <> [] \/ current <> [] ->
    (let '(ch, cu) := chunk_loop max_length rest chunks current in
     match cu with [] => ch | _ => ch ++ [cu] end) <> []).
  { intros chunks current Hne.
    pose proof (chunk_loop_nonempty max_length rest chunks current Hne) as H.
    destruct (chunk_loop max_length rest chunks current) as [ch cu].
    simpl in H. destruct cu as [|d cu]; [by destruct H|].
    by destruct ch. }
  destruct (len [] + len s + 1 <? max_length)%Z; apply H; [by right|by left].
Qed.

(** X5.  [chunk_text] returns no chunk at all exactly when the normalised
    text is empty and [max_length] is above 1. *)
Theorem chunk_text_nil text max_length :
  chunk_text text max_length = [] <->
  normalize text = [] /\ (1 < max_length)%Z.
Proof.
  unfold chunk_text, chunk. split.
  - pose proof (normalize_normal_form text) as Hn.
    destruct (normalize text) as [|c y] eqn:Ey.
    + change (sentences_of []) with [@nil N]. cbn [chunk_loop].
      change (len [] + len [] + 1)%Z with 1%Z.
      destruct (Z.ltb_spec 1 max_length); [done|]. simpl. done.
    + intros H. exfalso.
      destruct (sentences_of (c :: y)) as [|s rest] eqn:Es.
      { rewrite sentences_of_unfold in Es.
        by apply split_scan_nonempty in Es. }
      pose proof (first_sentence_nonempty (c :: y) s rest
                    (nf_tidy _ Hn) ltac:(done) Es) as Hs.
      pose proof (sentences_trimmed _ (nf_tidy _ Hn)) as Ht.
      rewrite Es in Ht. inversion Ht as [|? ? Hstrip _]; subst.
      by apply (chunk_nonempty max_length s rest Hs Hstrip).
  - intros [-> Hmax]. change (sentences_of []) with [@nil N].
    cbn [chunk_loop]. change (len [] + len [] + 1)%Z with 1%Z.
    by replace (1 <? max_length)%Z with true by by_lia.
Qed.

Lemma chunk_loop_tail_nonempty max_length sentences chunks current :
  Forall (fun c => c <> []) (tail chunks) ->
  (chunks <> [] -> current <> []) ->
  Forall (fun c => c <> [])
    (tail (fst (chunk_loop max_length sentences chunks current))) /\
  (fst (chunk_loop max_length sentences chunks current) <> [] ->
   snd (chunk_loop max_length sentences chunks current) <> []).
Proof.
  revert chunks current.
  induction sentences as [|s rest IH]; intros chunks current Ht Hc; [done|].
  simpl. destruct (len current + len s + 1 <? max_length)%Z; apply IH.
  - done.
  - intros H. specialize (Hc H). by destruct current.
  - destruct chunks as [|c0 chunks]; [done|]. simpl in *.
    apply Forall_app. split; [done|]. constructor; [by apply Hc|done].
  - intros _. by destruct s.
Qed.

(** X6.  Only the first chunk of the chunking phase can be empty: every
    chunk after it holds at least one character. *)
Theorem later_chunks_nonempty text max_length :
  Forall (fun c => c <> []) (tail (chunk text max_length)).
Proof.
  unfold chunk.
  destruct (chunk_loop_tail_nonempty max_length (sentences_of text) [] [])
    as [H1 H2]; [done|done|].
  destruct (chunk_loop max_length (sentences_of text) [] [])
    as [chunks current].
  simpl in *. destruct current as [|c current]; [done|].
  destruct chunks as [|c0 chunks]; [done|]. simpl in *.
  apply Forall_app. split; [done|]. by constructor.
Qed.

Lemma unspace_join l :
  unspace (join (py " ") l) = unspace (concat l).
Proof.
  induction l as [|x [|y r] IH]; [done| |].
  - simpl. by rewrite app_nil_r.
  - change (join (py " ") (x :: y :: r))
      with (x ++ py " " ++ join (py " ") (y :: r)).
    change (concat (x :: y :: r)) with (x ++ concat (y :: r)).
    by rewrite !unspace_app, IH.
Qed.

Lemma chunk_text_groups text max_length :
  exists groups pad,
    concat groups = sentences_of (normalize text) /\
    Forall2 glued groups (chunk_text text max_length ++ pad) /\
    (pad = [] \/ pad = [[]]).
Proof.
  unfold chunk_text, chunk.
  pose proof (sentences_trimmed _ (nf_tidy _ (normalize_normal_form text)))
    as Ht.
  destruct (chunk_loop_groups max_length (sentences_of (normalize text))
              [] [] [] [] Ht) as (gs & g & E & H1 & H2);
    [constructor|by left|].
  destruct (chunk_loop max_length (sentences_of (normalize text)) [] [])
    as [chunks current].
  simpl in *. destruct current as [|c current].
  - exists (gs ++ [g]), [[]]. split; [done|]. split; [|by right].
    apply Forall2_app; [done|]. by constructor.
  - exists (gs ++ [g]), []. rewrite app_nil_r. split; [done|].
    split; [|by left]. apply Forall2_app; [done|]. by constructor.
Qed.

(** X7.  Blanks apart, the chunks of [chunk_text] put together are the
    normalised text: chunking adds and drops nothing but blanks. *)
Theorem chunks_spell_the_text text max_length :
  unspace (concat (chunk_text text max_length)) = unspace (normalize text).
Proof.
  destruct (chunk_text_groups text max_length) as (groups & pad & E & HF & Hp).
  transitivity (unspace (join (py " ") (sentences_of (normalize text))));
    [|by rewrite join_sentences_of by apply normalize_tidy].
  rewrite unspace_join, <- E, <- (unspace_groups _ _ HF).
  rewrite concat_app, unspace_app.
  destruct Hp as [->| ->]; simpl; by rewrite app_nil_r.
Qed.

Lemma len_join_ge l : (len (concat l) <= len (join (py " ") l))%Z.
Proof.
  induction l as [|x [|y r] IH]; [done| |].
  - simpl. rewrite app_nil_r. lia.
  - change (join (py " ") (x :: y :: r))
      with (x ++ py " " ++ join (py " ") (y :: r)).
    change (concat (x :: y :: r)) with (x ++ concat (y :: r)).
    rewrite !len_app. change (len (py " ")) with 1%Z. unfold len in *. lia.
Qed.

Lemma chunk_loop_fits max_length sentences current :
  Forall (fun s => strip s = s) sentences ->
  (len current + len (concat sentences) + 1 < max_length)%Z ->
  chunk_loop max_length sentences [] current
  = ([], current ++ concat sentences).
Proof.
  revert current. induction sentences as [|s rest IH]; intros current Ht Hlen.
  { simpl. by rewrite app_nil_r. }
  inversion Ht as [|? ? Hs Hrest]; subst. cbn [chunk_loop concat] in *.
  rewrite len_app in Hlen.
  replace (len current + len s + 1 <? max_length)%Z with true.
  2:{ symmetry. apply Z.ltb_lt. unfold len in *. lia. }
  rewrite strip_app_blank, Hs, IH; [by rewrite <- app_assoc|done|].
  rewrite len_app. lia.
Qed.

(** X8.  A text whose normalisation is not empty and shorter than
    [max_length - 1] gives one chunk, and that chunk is the sentences of the
    normalised text one after the other with nothing between them. *)
Theorem short_text_one_chunk text max_length :
  normalize text <> [] ->
  (len (normalize text) + 1 < max_length)%Z ->
  chunk_text text max_length = [concat (sentences_of (normalize text))].
Proof.
  intros Hne Hlen.
  pose proof (normalize_normal_form text) as Hn.
  pose proof (sentences_trimmed _ (nf_tidy _ Hn)) as Ht.
  pose proof (len_join_ge (sentences_of (normalize text))) as Hj.
  rewrite join_sentences_of in Hj by apply normalize_tidy.
  unfold chunk_text, chunk.
  rewrite (chunk_loop_fits max_length _ [] Ht)
    by (change (len []) with 0%Z; lia).
  rewrite app_nil_l.
  destruct (sentences_of (normalize text)) as [|s rest] eqn:Es.
  { rewrite sentences_of_unfold in Es. by apply split_scan_nonempty in Es. }
  pose proof (first_sentence_nonempty _ s rest (nf_tidy _ Hn) Hne Es) as Hs.
  destruct s as [|c s]; done.
Qed.

Lemma short_text_one_chunk_witness :
  chunk_text scenario 1000 = [concat (sentences_of (normalize scenario))].
Proof.
  apply short_text_one_chunk.
  - vm_compute. discriminate.
  - vm_compute. reflexivity.
Defined.

(** ** Chunk boundaries *)

Lemma last_of_rev b h :
  last_of b h = match rev h with d :: _ => Some d | [] => b end.
Proof.
  revert b. induction h as [|c t IH]; intros b; [done|].
  simpl. rewrite IH. by destruct (rev t).
Qed.

Lemma split_scan_gaps s b :
  spaced s = true -> gaps_after_terminators b (split_scan gap_len O b s).
Proof.
  revert b. induction s as [|c t IH]; intros b Hs; [done|].
  assert (Hst : spaced t = true).
  { rewrite spaced_cons in Hs. by apply andb_true_iff in Hs as [_ Hs]. }
  pose proof (IH (Some c) Hst) as IHc.
  pose proof (split_scan_nonempty gap_len O (Some c) t) as Hne.
  cbn [split_scan].
  destruct (gap_len b (c :: t)) as [[|n]|] eqn:Em.
  - destruct (split_scan gap_len O (Some c) t) as [|h [|h' r]]; done.
  - destruct (gap_in_spaced b c t n Hs Em) as (-> & -> & e & -> & He).
    destruct (split_scan gap_len O (Some 32) t) as [|h r]; [done|].
    split; [by exists e|done].
  - destruct (split_scan gap_len O (Some c) t) as [|h [|h' r]]; done.
Qed.

Lemma gaps_removelast b l :
  b = None \/ b = Some 32 ->
  gaps_after_terminators b l ->
  Forall (fun p => ends_with_terminator p = true) (removelast l).
Proof.
  revert b. induction l as [|h r IH]; intros b Hb H; [constructor|].
  destruct r as [|h' r]; [constructor|].
  destruct H as [(d & Hd & Ht) H].
  change (removelast (h :: h' :: r)) with (h :: removelast (h' :: r)).
  constructor; [|apply (IH (Some 32)); [by right|done]].
  unfold ends_with_terminator. rewrite last_of_rev in Hd.
  destruct (rev h) as [|e u]; [|by injection Hd as ->].
  destruct Hb as [->| ->]; [done|]. by injection Hd as <-.
Qed.

Lemma sentences_end_with_terminators y :
  tidy y = true ->
  Forall (fun p => ends_with_terminator p = true) (removelast (sentences_of y)).
Proof.
  intros Ht. rewrite sentences_of_unfold.
  apply (gaps_removelast None); [by left|].
  by apply split_scan_gaps, tidy_spaced.
Qed.

Lemma drop_while_snoc p (a : list N) d :
  p d = false -> exists a', drop_while p (a ++ [d]) = a' ++ [d].
Proof.
  intros Hd. induction a as [|c a IH]; simpl.
  - rewrite Hd. by exists [].
  - destruct (p c); [done|]. by exists (c :: a).
Qed.

Lemma ends_sentence_app current s :
  ends_with_terminator s = true -> ends_sentence (current ++ s) = true.
Proof.
  unfold ends_with_terminator, ends_sentence.
  destruct (rev s) as [|d u] eqn:Er; [done|]. intros Hd.
  assert (Hs : s = rev u ++ [d]).
  { by rewrite <- (rev_involutive s), Er. }
  pose proof (terminator_not_space d Hd) as Hsp.
  unfold strip, lstrip, rstrip.
  rewrite Hs, app_assoc, rev_app_distr. simpl. rewrite Hsp.
  change (d :: rev (current ++ rev u)) with (rev [d] ++ rev (current ++ rev u)).
  rewrite <- rev_app_distr, rev_involutive.
  destruct (drop_while_snoc is_space (current ++ rev u) d Hsp) as [a' ->].
  by rewrite rev_app_distr.
Qed.

Lemma chunk_loop_ends max_length sentences chunks current :
  Forall (fun s => strip s = s) sentences ->
  Forall (fun p => ends_with_terminator p = true) (removelast sentences) ->
  (sentences <> [] -> ends_sentence current = true) ->
  Forall (fun c => ends_sentence c = true) chunks ->
  Forall (fun c => ends_sentence c = true)
    (fst (chunk_loop max_length sentences chunks current)).
Proof.
  revert chunks current.
  induction sentences as [|s rest IH]; intros chunks current Ht He Hc Hch;
    [done|].
  inversion Ht as [|? ? Hs Hrest]; subst. cbn [chunk_loop].
  assert (Hrest' : Forall (fun p => ends_with_terminator p = true)
                     (removelast rest)).
  { destruct rest as [|s' rest]; [constructor|].
    change (removelast (s :: s' :: rest)) with (s :: removelast (s' :: rest))
      in He. by inversion He. }
  assert (Hlast : rest <> [] -> ends_with_terminator s = true).
  { destruct rest as [|s' rest]; [done|]. intros _.
    change (removelast (s :: s' :: rest)) with (s :: removelast (s' :: rest))
      in He. by inversion He. }
  destruct (len current + len s + 1 <? max_length)%Z.
  - apply IH; [done|done| |done].
    intros Hne. rewrite strip_app_blank, Hs.
    by apply ends_sentence_app, Hlast.
  - apply IH; [done|done| |].
    + intros Hne. unfold ends_sentence. rewrite strip_app_blank, Hs.
      specialize (Hlast Hne). unfold ends_with_terminator in Hlast.
      by destruct (rev s).
    + apply Forall_app. split; [done|]. constructor; [by apply Hc|done].
Qed.

Lemma Forall_removelast {A} (P : A -> Prop) (l : list A) :
  Forall P l -> Forall P (removelast l).
Proof.
  induction 1 as [|x l Hx Hl IH]; [constructor|].
  destruct l; [constructor|]. by constructor.
Qed.

(** X9.  Chunks are cut where sentences end: every chunk of [chunk_text]
    but the last is, without its surrounding white space, empty or ended
    by [.], [!] or [?]. *)
Theorem chunks_end_with_sentences text max_length :
  Forall (fun c => ends_sentence c = true)
    (removelast (chunk_text text max_length)).
Proof.
  unfold chunk_text, chunk.
  pose proof (normalize_normal_form text) as Hn.
  pose proof (chunk_loop_ends max_length (sentences_of (normalize text)) [] []
    (sentences_trimmed _ (nf_tidy _ Hn))
    (sentences_end_with_terminators _ (nf_tidy _ Hn))
    (fun _ => eq_refl) (List.Forall_nil _)) as H.
  destruct (chunk_loop max_length (sentences_of (normalize text)) [] [])
    as [chunks current].
  simpl in H. destruct current as [|c current].
  - by apply Forall_removelast.
  - by rewrite removelast_last.
Qed.

(** ** The characters of the chunks *)

Lemma split_scan_Forall (P : N -> Prop) m k b s :
  Forall P s -> Forall (Forall P) (split_scan m k b s).
Proof.
  revert k b. induction s as [|c t IH]; intros k b Hs.
  { by repeat constructor. }
  inversion Hs as [|? ? Hc Ht]; subst. cbn [split_scan].
  assert (Hpush : Forall (Forall P) (push_head c (split_scan m O (Some c) t))).
  { specialize (IH O (Some c) Ht).
    destruct (split_scan m O (Some c) t) as [|h r]; simpl.
    - by repeat constructor.
    - inversion IH; subst. constructor; [by constructor|done]. }
  destruct k as [|k]; [|by apply IH].
  destruct (m b (c :: t)) as [[|n]|]; [done| |done].
  constructor; [constructor|by apply IH].
Qed.

Lemma chunk_loop_Forall (P : N -> Prop) max_length sentences chunks current :
  P 32 ->
  Forall (Forall P) sentences -> Forall (Forall P) chunks ->
  Forall P current ->
  Forall (Forall P) (fst (chunk_loop max_length sentences chunks current)) /\
  Forall P (snd (chunk_loop max_length sentences chunks current)).
Proof.
  intros Hb. revert chunks current.
  induction sentences as [|s rest IH]; intros chunks current Hs Hch Hcu;
    [done|].
  inversion Hs as [|? ? H1 H2]; subst. cbn [chunk_loop].
  assert (Hsb : Forall P (s ++ py " ")).
  { apply Forall_app. split; [done|]. by repeat constructor. }
  destruct (len current + len s + 1 <? max_length)%Z; apply IH; try done.
  - apply Forall_app. split; [done|]. by apply Forall_strip.
  - apply Forall_app. split; [done|]. by constructor.
Qed.

Lemma normalize_plain text : Forall plain_char (normalize text).
Proof.
  pose proof (normalize_normal_form text) as Hn.
  apply Forall_forall. intros c Hc. split.
  - by apply (proj1 (Forall_forall _ _) (nf_ascii _ Hn)).
  - apply (spaced_only_blanks (normalize text));
      [apply tidy_spaced, (nf_tidy _ Hn)|by apply list_elem_of_In].
Qed.

Lemma chunk_text_plain text max_length :
  Forall (Forall plain_char) (chunk_text text max_length).
Proof.
  unfold chunk_text, chunk.
  destruct (chunk_loop_Forall plain_char max_length
              (sentences_of (normalize text)) [] []) as [H1 H2];
    [done| |constructor|constructor|].
  { rewrite sentences_of_unfold. apply split_scan_Forall, normalize_plain. }
  destruct (chunk_loop max_length (sentences_of (normalize text)) [] [])
    as [chunks current].
  simpl in *. destruct current; [done|].
  apply Forall_app. split; [done|]. by constructor.
Qed.

(** X10.  What [save_chunks_to_vault] appends for the chunks of
    [chunk_text] is ASCII text of exactly one line per chunk, the chunk
    without its surrounding white space: no chunk brings a line break of
    its own. *)
Theorem chunk_text_vault_lines text max_length w path :
  environ w !! py "VAULT_FILENAME" = Some path ->
  exists appended,
    save_chunks_to_vault (chunk_text text max_length) w =
    (inr tt,
     set_files (<[path := default [] (files w !! path) ++ appended]> (files w))
               w) /\
    lines appended = map strip (chunk_text text max_length) /\
    length (lines appended) = length (chunk_text text max_length) /\
    Forall (fun c => c < 128) appended.
Proof.
  intros Hpath.
  exists (concat (map vault_line (chunk_text text max_length))).
  pose proof (chunk_text_plain text max_length) as Hp.
  assert (Hl : lines (concat (map vault_line (chunk_text text max_length)))
               = map strip (chunk_text text max_length)).
  { apply lines_vault. eapply Forall_impl; [exact Hp|].
    intros chunk Hc Hin. apply (Forall_strip plain_char) in Hc.
    apply list_elem_of_In in Hin.
    destruct (proj1 (Forall_forall _ _) Hc 10 Hin) as [_ H].
    by specialize (H eq_refl). }
  split; [by apply save_chunks_to_vault_spec|].
  split; [exact Hl|]. split; [by rewrite Hl, length_map|].
  apply Forall_concat, Forall_map.
  eapply Forall_impl; [exact Hp|]. intros chunk Hc. unfold vault_line.
  apply Forall_app. split; [|by repeat constructor].
  apply (Forall_strip plain_char) in Hc.
  eapply Forall_impl; [exact Hc|]. intros c [Ha _]. by apply N.ltb_lt.
Qed.

Lemma chunk_text_vault_lines_witness :
  exists appended,
    save_chunks_to_vault (chunk_text (py "One. Two. Three. Four.") 20)
      ready_world =
    (inr tt,
     set_files (<[py "vault.txt" :=
                    default [] (files ready_world !! py "vault.txt")
                    ++ appended]> (files ready_world)) ready_world) /\
    lines appended = map strip (chunk_text (py "One. Two. Three. Four.") 20) /\
    length (lines appended)
    = length (chunk_text (py "One. Two. Three. Four.") 20) /\
    Forall (fun c => c < 128) appended.
Proof.
  apply chunk_text_vault_lines. vm_compute. reflexivity.
Defined.

(** ** Normalising more than once *)

Lemma quote_count_cons c t :
  quote_count (c :: t) =
  if gt_or_ws c
  then ((if (62 =? c)%N then 1 else 0) + quote_count t)%nat else O.
Proof.
  unfold quote_count. simpl. destruct (gt_or_ws c); [|done].
  unfold count_gt. simpl. by destruct (62 =? c).
Qed.

Lemma quote_count_blank t : quote_count (32 :: t) = quote_count t.
Proof. by rewrite quote_count_cons. Qed.

Lemma quote_count_outside s :
  match s with [] => True | c :: _ => gt_or_ws c = false end ->
  quote_count s = O.
Proof. destruct s as [|c t]; [done|]. unfold quote_count. simpl. by intros ->. Qed.

Lemma m_quote_match b s n :
  m_quote b s = Some n ->
  (2 <= quote_count s)%nat /\ drop n s = drop_while gt_or_ws s.
Proof.
  unfold m_quote, quote_len. fold (quote_count s).
  destruct (Nat.leb_spec 2 (quote_count s)); [|done].
  intros [= <-]. split; [done|].
  fold (run_len gt_or_ws s). by rewrite <- drop_while_drop.
Qed.

Lemma m_quote_no_match b s :
  (forall n, m_quote b s <> Some (S n)) -> (quote_count s < 2)%nat.
Proof.
  unfold m_quote, quote_len. fold (quote_count s). intros H.
  destruct (Nat.leb_spec 2 (quote_count s)) as [Hge|]; [|done].
  exfalso. pose proof (count_gt_le (take_while gt_or_ws s)) as Hle.
  unfold quote_count in Hge.
  apply (H (length (take_while gt_or_ws s) - 1)%nat). f_equal. lia.
Qed.

(** After the quote substitution the run at the start holds as many ['>']
    as before when there was no match, and none otherwise. *)
Lemma quote_count_sub_quote b s :
  quote_count (sub_scan m_quote (py " ") O b s) =
  if (2 <=? quote_count s)%nat then O else quote_count s.
Proof.
  revert b s. apply (scan_ind m_quote (fun b s =>
    quote_count (sub_scan m_quote (py " ") O b s) =
    if (2 <=? quote_count s)%nat then O else quote_count s)).
  - done.
  - intros b c t Hno IH. rewrite sub_scan_copy by done.
    pose proof (m_quote_no_match b _ Hno) as Hlt.
    replace (2 <=? quote_count (c :: t))%nat with false by by_lia.
    rewrite quote_count_cons in Hlt. rewrite !quote_count_cons.
    destruct (gt_or_ws c); [|done]. rewrite IH.
    by replace (2 <=? quote_count t)%nat with false by by_lia.
  - intros b c t n Hm IH. rewrite (sub_scan_match _ _ _ _ _ _ Hm).
    destruct (m_quote_match _ _ _ Hm) as [Hge Hdrop].
    replace (2 <=? quote_count (c :: t))%nat with true by by_lia.
    change (py " " ++ ?l) with (32 :: l). rewrite quote_count_blank, IH.
    rewrite Hdrop, quote_count_outside; [done|].
    destruct (drop_while gt_or_ws (c :: t)) as [|d u] eqn:E; [done|].
    by apply drop_while_head in E.
Qed.

Lemma nowhere_quote_sub_quote b s :
  Nowhere quote_here (sub_scan m_quote (py " ") O b s).
Proof.
  revert b s. apply (scan_ind m_quote (fun b s =>
    Nowhere quote_here (sub_scan m_quote (py " ") O b s))).
  - intros b i. simpl. by rewrite drop_nil.
  - intros b c t Hno IH [|i].
    + unfold quote_here. rewrite drop_0, quote_count_sub_quote.
      destruct (Nat.leb_spec 2 (quote_count (c :: t)));
        [done|apply Nat.leb_gt; lia].
    + rewrite sub_scan_copy by done. apply IH.
  - intros b c t n Hm IH [|i].
    + unfold quote_here. rewrite drop_0, quote_count_sub_quote.
      destruct (Nat.leb_spec 2 (quote_count (c :: t)));
        [done|apply Nat.leb_gt; lia].
    + rewrite (sub_scan_match _ _ _ _ _ _ Hm). apply IH.
Qed.

Lemma quote_count_after_spaces s :
  quote_count s = quote_count (drop_while is_space s).
Proof.
  unfold quote_count.
  rewrite (take_while_quote s), count_gt_app, count_gt_spaces. simpl.
  destruct (drop_while is_space s) as [|c t] eqn:E; [done|].
  apply drop_while_head in E. unfold quote_run.
  destruct (62 =? c) eqn:Ec; [done|].
  simpl. unfold gt_or_ws. by rewrite Ec, E.
Qed.

(** Replacing runs of white space by one blank keeps the number of ['>']
    in the run at the start. *)
Lemma quote_count_sub_spaces k b s :
  quote_count (sub_scan (m_run is_space k) (py " ") O b s) = quote_count s.
Proof.
  revert b s. apply (scan_ind (m_run is_space k) (fun b s =>
    quote_count (sub_scan (m_run is_space k) (py " ") O b s)
    = quote_count s)).
  - done.
  - intros b c t Hno IH. rewrite sub_scan_copy by done.
    by rewrite !quote_count_cons, IH.
  - intros b c t n Hm IH. rewrite (sub_scan_match _ _ _ _ _ _ Hm).
    change (py " " ++ ?l) with (32 :: l). rewrite quote_count_blank, IH.
    unfold m_run in Hm.
    destruct (k <=? run_len is_space (c :: t))%nat; [|done].
    injection Hm as <-. rewrite <- drop_while_drop.
    symmetry. apply quote_count_after_spaces.
Qed.

Lemma nowhere_quote_sub_spaces k b s :
  Nowhere quote_here s ->
  Nowhere quote_here (sub_scan (m_run is_space k) (py " ") O b s).
Proof.
  revert b s. apply (scan_ind (m_run is_space k) (fun b s =>
    Nowhere quote_here s ->
    Nowhere quote_here (sub_scan (m_run is_space k) (py " ") O b s))).
  - intros b _ i. simpl. by rewrite drop_nil.
  - intros b c t Hno IH H [|i].
    + unfold quote_here. rewrite drop_0, quote_count_sub_spaces.
      apply (H O).
    + rewrite sub_scan_copy by done. apply IH. intros j. apply (H (S j)).
  - intros b c t n Hm IH H [|i].
    + unfold quote_here. rewrite drop_0, quote_count_sub_spaces.
      apply (H O).
    + rewrite (sub_scan_match _ _ _ _ _ _ Hm). apply IH.
      by apply nowhere_drop.
Qed.

Lemma nowhere_quote_prefix (a b : list N) :
  Nowhere quote_here (a ++ b) -> Nowhere quote_here a.
Proof.
  intros H i. specialize (H i). unfold quote_here, quote_count in *.
  apply Nat.leb_gt. apply Nat.leb_gt in H.
  assert (Hp : take_while gt_or_ws (drop i a)
               `prefix_of` take_while gt_or_ws (drop i (a ++ b))).
  { apply take_while_prefix. rewrite drop_app. by eexists. }
  destruct Hp as [k Hk]. rewrite Hk, count_gt_app in H. lia.
Qed.

Lemma nowhere_quote_strip s :
  Nowhere quote_here s -> Nowhere quote_here (strip s).
Proof.
  intros H. rewrite strip_drop. apply nowhere_drop.
  apply (nowhere_quote_prefix _ (rev (take_while is_space (rev s)))).
  by rewrite <- rstrip_prefix.
Qed.

Lemma quote_here_pair s : starts_with (py "> >") s = true -> quote_here s = true.
Proof.
  intros H. apply starts_with_split in H. rewrite H.
  unfold quote_here, quote_count.
  change (py "> >" ++ ?l) with (62 :: 32 :: 62 :: l).
  change (take_while gt_or_ws (62 :: 32 :: 62 :: ?l))
    with (62 :: 32 :: 62 :: take_while gt_or_ws l).
  change (count_gt (62 :: 32 :: 62 :: ?l)) with (S (S (count_gt l))).
  done.
Qed.

(** X11.  The normalisation settles at its second application: whatever
    the text, normalising a third time changes nothing. *)
Theorem normalize_settles text :
  normalize (normalize (normalize text)) = normalize (normalize text).
Proof.
  apply normalize_fixed; [apply normalize_normal_form|].
  destruct (normalize_normal_form text) as [Ha Ht Hq Hd Hu Hl].
  apply contains_nowhere.
  apply (nowhere_weaken quote_here); [apply quote_here_pair|].
  rewrite (normalize_unfold (normalize text)), (encode_ascii_id _ Ha).
  set (z := sub_scan m_quote (py " ") O None (normalize text)).
  assert (Hz : Nowhere quote_here z) by apply nowhere_quote_sub_quote.
  rewrite (sub_run_id (N.eqb 45) 3 _ None z)
    by (lia || (apply nowhere_blank; auto with monotone)).
  rewrite (sub_run_id (N.eqb 95) 3 _ None z)
    by (lia || (apply nowhere_blank; auto with monotone)).
  rewrite sub_url_id
    by (do 2 (apply nowhere_blank; [auto with monotone|]); done).
  by apply nowhere_quote_strip, nowhere_quote_sub_spaces,
    nowhere_quote_sub_spaces.
Qed.

(** ** The text of a message *)

(** X12.  In a multipart message the parts that are neither [text/plain]
    nor [text/html] play no role in the extracted text: they add nothing
    to it and cannot make the extraction fail. *)
Theorem collect_text_ignores_other_parts codecs get_text parts text_content :
  collect_text codecs get_text parts text_content
  = collect_text codecs get_text (List.filter is_text_part parts) text_content.
Proof.
  revert text_content. induction parts as [|part rest IH]; intros acc; [done|].
  cbn [collect_text List.filter]. unfold is_text_part.
  destruct (str_eqb (get_content_type part) (py "text/plain")) eqn:E1.
  { cbn [orb collect_text]. rewrite E1.
    by destruct (decode_part codecs part Ignore). }
  destruct (str_eqb (get_content_type part) (py "text/html")) eqn:E2;
    [|apply IH].
  cbn [orb collect_text]. rewrite E1, E2.
  by destruct (decode_part codecs part Ignore).
Qed.

(** X13.  When every part met by the walk can be read, the text of a
    multipart message is the texts of its parts one after the other, in
    the order of the walk and with nothing between them. *)
Theorem collect_text_concat codecs get_text parts texts text_content :
  Forall2 (fun part text => part_text codecs get_text part = inr text)
          parts texts ->
  collect_text codecs get_text parts text_content
  = inr (text_content ++ concat texts).
Proof.
  intros H. revert text_content.
  induction H as [|part text parts texts Hp _ IH]; intros acc.
  { simpl. by rewrite app_nil_r. }
  cbn [collect_text concat]. unfold part_text in Hp.
  destruct (str_eqb (get_content_type part) (py "text/plain")).
  { rewrite Hp, IH. by rewrite <- app_assoc. }
  destruct (str_eqb (get_content_type part) (py "text/html")).
  { destruct (decode_part codecs part Ignore) as [e|html]; [done|].
    injection Hp as <-. rewrite IH. by rewrite <- app_assoc. }
  injection Hp as <-. rewrite IH. by rewrite app_nil_l.
Qed.

Lemma collect_text_concat_witness :
  text_content_of sample_codecs (fun html => html)
    (Multi (Headers (py "multipart") (py "alternative") None None None)
       [Single (Headers (py "text") (py "plain") (Some (py "ascii")) None None)
          (py "Hi there.");
        report_part;
        Single (Headers (py "text") (py "html") (Some (py "ascii")) None None)
          (py "Bye")])
  = inr (py "Hi there." ++ py "Bye").
Proof.
  unfold text_content_of. cbn [is_multipart].
  rewrite (collect_text_concat sample_codecs (fun html => html) _
             [[]; py "Hi there."; []; py "Bye"]).
  - reflexivity.
  - repeat constructor.
Defined.

(** ** [save_plain_text_content] *)

(** X14.  [save_plain_text_content] writes nothing when the text cannot be
    extracted and hands the error on; otherwise it returns the text and
    appends to the vault the lines of [chunk_text] at its default
    [max_length] of 1000, changing nothing else. *)
Theorem save_plain_text_content_effect
    codecs get_text parsebytes email_bytes email_id w :
  (forall e,
     text_content_of codecs get_text (parsebytes email_bytes) = inl e ->
     save_plain_text_content codecs get_text parsebytes email_bytes email_id w
     = (inl e, w)) /\
  (forall text path,
     text_content_of codecs get_text (parsebytes email_bytes) = inr text ->
     environ w !! py "VAULT_FILENAME" = Some path ->
     save_plain_text_content codecs get_text parsebytes email_bytes email_id w
     = (inr text,
        set_files
          (<[path := default [] (files w !! path)
                     ++ concat (map (fun chunk => strip chunk ++ newline)
                                    (chunk_text text 1000))]> (files w)) w)).
Proof.
  unfold save_plain_text_content, bind, lift. split.
  - intros e ->. done.
  - intros text path -> Hpath.
    by rewrite (save_chunks_to_vault_spec _ w path Hpath).
Qed.

Lemma save_plain_text_content_effect_witness :
  save_plain_text_content sample_codecs (fun html => html)
    (fun _ => accented_in_multipart) [] (py "1") ready_world
  = (inr (py "Caf"),
     set_files (<[py "vault.txt" := py "Caf" ++ newline]> (files ready_world))
               ready_world).
Proof.
  destruct (save_plain_text_content_effect sample_codecs (fun html => html)
              (fun _ => accented_in_multipart) [] (py "1") ready_world)
    as [_ H].
  rewrite (H (py "Caf") (py "vault.txt")); [|by vm_compute|by vm_compute].
  vm_compute. reflexivity.
Defined.

(** ** Attachments, one after the other *)

Lemma save_attachment_cases part email_id folder_path w :
  match attachment_path part email_id folder_path with
  | None => save_attachment part email_id folder_path w = (inr tt, w)
  | Some p =>
      match get_payload part with
      | Some data =>
          save_attachment part email_id folder_path w
          = (inr tt,
             set_stdout (stdout w ++ [py "Saved attachment to " ++ p])
               (set_files (<[p := data]> (files w)) w))
      | None =>
          save_attachment part email_id folder_path w
          = (inl TypeError, set_files (<[p := []]> (files w)) w)
      end
  end.
Proof.
  unfold attachment_path, save_attachment.
  destruct (str_eqb (get_content_maintype part) (py "multipart")); [done|].
  destruct (content_disposition (header_of part)); [|done].
  destruct (filename (header_of part)) as [[|c name]|]; try done.
  unfold bind, open_truncate, file_write, print, raise.
  destruct (get_payload part); cbn [files set_files set_stdout stdout];
    [|done].
  rewrite lookup_insert_eq. cbn [default app].
  by rewrite insert_insert_eq.
Qed.


Lemma save_attachment_keeps_file part email_id folder_path p :
  attachment_path part email_id folder_path <> Some p ->
  keeps_file p (save_attachment part email_id folder_path).
Proof.
  intros Hp w.
  pose proof (save_attachment_cases part email_id folder_path w) as H.
  destruct (attachment_path part email_id folder_path) as [q|];
    [|by rewrite H].
  destruct (get_payload part); rewrite H; simpl;
    apply lookup_insert_ne; congruence.
Qed.


Lemma save_attachments_keeps_file parts email_id folder p :
  Forall (fun part => attachment_path part email_id folder <> Some p) parts ->
  keeps_file p (save_attachments parts email_id folder).
Proof.
  induction 1 as [|part rest Hp _ IH]; intros w; [done|].
  cbn [save_attachments]. unfold bind.
  pose proof (save_attachment_keeps_file part email_id folder p Hp w) as H.
  destruct (save_attachment part email_id folder w) as [[e|[]] w'];
    simpl in *; [done|]. by rewrite IH.
Qed.


(** X16.  Saving the attachments of a message touches no file but the
    files its parts name: a path that is the attachment path of none of
    the parts holds afterwards what it held before, also when the run is
    cut short by an error. *)
Theorem save_attachments_frame parts email_id folder p w :
  Forall (fun part => attachment_path part email_id folder <> Some p) parts ->
  files (snd (save_attachments parts email_id folder w)) !! p = files w !! p.
Proof. intros H. by apply save_attachments_keeps_file. Qed.

Lemma save_attachments_frame_witness :
  files (snd (save_attachments [report_part; inline_named_part] (py "7")
                (py "/home/user/attachments") ready_world))
    !! py "vault.txt" = None.
Proof.
  rewrite save_attachments_frame; [done|].
  repeat constructor; by vm_compute.
Defined.




(** ** What goes to the server *)

Lemma keeps_network_bind {A B} (m : M A) (k : A -> M B) :
  keeps_network m -> (forall a, keeps_network (k a)) ->
  keeps_network (bind m k).
Proof.
  intros Hm Hk w. unfold bind. specialize (Hm w).
  destruct (m w) as [[e|a] w']; simpl in *; [done|].
  by rewrite Hk.
Qed.

Lemma write_chunks_keeps_network path chunks :
  keeps_network (write_chunks path chunks).
Proof.
  induction chunks as [|chunk rest IH]; [done|].
  cbn [write_chunks]. by apply keeps_network_bind.
Qed.

Lemma save_chunks_to_vault_keeps_network chunks :
  keeps_network (save_chunks_to_vault chunks).
Proof.
  unfold save_chunks_to_vault. apply keeps_network_bind; [done|].
  intros [path|]; [|done].
  apply keeps_network_bind; [done|]. intros _.
  apply write_chunks_keeps_network.
Qed.

Lemma save_plain_text_content_keeps_network
    codecs get_text parsebytes email_bytes email_id :
  keeps_network
    (save_plain_text_content codecs get_text parsebytes email_bytes email_id).
Proof.
  unfold save_plain_text_content. apply keeps_network_bind; [done|].
  intros text. apply keeps_network_bind; [|done].
  apply save_chunks_to_vault_keeps_network.
Qed.

Lemma save_attachments_keeps_network parts email_id folder :
  keeps_network (save_attachments parts email_id folder).
Proof.
  induction parts as [|part rest IH]; [done|].
  cbn [save_attachments]. apply keeps_network_bind; [|done].
  intros w. pose proof (save_attachment_cases part email_id folder w) as H.
  destruct (attachment_path part email_id folder); [|by rewrite H].
  destruct (get_payload part); by rewrite H.
Qed.

Lemma process_email_network
    codecs get_text parsebytes message_from_bytes server source num w :
  network (snd (process_email codecs get_text parsebytes message_from_bytes
                  server source num w))
  = network w ++ [NetFetch num].
Proof.
  unfold process_email, bind at 1, send. cbn [fst snd].
  destruct (imap_fetch server num) as [[|] raw]; [|done].
  set (w1 := set_network (network w ++ [NetFetch num]) w).
  change (network w ++ [NetFetch num]) with (network w1).
  apply keeps_network_bind; [done|]. intros _.
  apply keeps_network_bind;
    [apply save_plain_text_content_keeps_network|]. intros _.
  apply keeps_network_bind; [done|]. intros here.
  apply save_attachments_keeps_network.
Qed.

Lemma process_emails_network
    codecs get_text parsebytes message_from_bytes server source ids w :
  exists k,
    (k <= length ids)%nat /\
    network (snd (process_emails codecs get_text parsebytes message_from_bytes
                    server source ids w))
    = network w ++ map NetFetch (take k ids) /\
    (fst (process_emails codecs get_text parsebytes message_from_bytes
            server source ids w) = inr tt -> k = length ids).
Proof.
  revert w. induction ids as [|num rest IH]; intros w.
  { exists O. simpl. by rewrite app_nil_r. }
  cbn [process_emails]. unfold bind.
  pose proof (process_email_network codecs get_text parsebytes
                message_from_bytes server source num w) as Hnet.
  destruct (process_email codecs get_text parsebytes message_from_bytes
              server source num w) as [[e|[]] w1]; simpl in Hnet.
  - exists 1%nat. simpl. split; [lia|]. split; [by rewrite Hnet|done].
  - destruct (IH w1) as (k & Hk & Hn & Hok). exists (S k).
    split; [simpl; lia|]. split.
    + rewrite Hn, Hnet. simpl. by rewrite <- app_assoc.
    + intros H. simpl. f_equal. by apply Hok.
Qed.

Lemma search_and_process_emails_unfold
    codecs get_text parsebytes message_from_bytes server source kw sd ed :
  search_and_process_emails codecs get_text parsebytes message_from_bytes
    server source kw sd ed
  = (print (py "Using search criteria for " ++ source ++ py ": "
            ++ criteria_of kw sd ed) ;;
     send (NetSearch (criteria_of kw sd ed)) ;;
     let '(ok, email_ids) := imap_search server (criteria_of kw sd ed) in
     if ok then
       print (py "Found " ++ str_of_nat (length email_ids)
              ++ py " emails matching criteria in " ++ source ++ py ".") ;;
       process_emails codecs get_text parsebytes message_from_bytes server
         source email_ids
     else
       print (py "Failed to find emails with given criteria in " ++ source
              ++ py ". No emails found.")).
Proof.
  unfold search_and_process_emails, criteria_of.
  destruct (truthy sd && truthy ed); destruct kw; cbv zeta;
    by rewrite ?app_nil_r.
Qed.

Lemma search_and_process_emails_network
    codecs get_text parsebytes message_from_bytes server source kw sd ed w :
  let run := search_and_process_emails codecs get_text parsebytes
               message_from_bytes server source kw sd ed w in
  let answer := imap_search server (criteria_of kw sd ed) in
  exists k,
    (k <= length (snd answer))%nat /\
    network (snd run)
    = network w ++ NetSearch (criteria_of kw sd ed)
                   :: map NetFetch (take k (snd answer)) /\
    (fst answer = true -> fst run = inr tt -> k = length (snd answer)) /\
    (fst answer = false ->
     k = O /\ fst run = inr tt /\ files (snd run) = files w).
Proof.
  cbv zeta. rewrite search_and_process_emails_unfold.
  unfold bind at 1 2, print at 1, send. cbn [fst snd].
  destruct (imap_search server (criteria_of kw sd ed)) as [[|] ids];
    cbn [fst snd].
  - unfold bind at 1, print at 1. cbn [fst snd].
    match goal with
    | |- context [process_emails _ _ _ _ _ _ _ ?w0] =>
        destruct (process_emails_network codecs get_text parsebytes
                    message_from_bytes server source ids w0)
          as (k & Hk & Hn & Hok)
    end.
    exists k. split; [done|]. split; [|split; [by intros _|done]].
    rewrite Hn. cbn [network set_network set_stdout].
    by rewrite <- app_assoc.
  - exists O. split; [lia|]. unfold print. cbn.
    repeat split; done.
Qed.

(** X18.  [search_and_process_emails] sends one search, with the criteria
    of lines 92 to 96, and then fetches the messages the server has listed,
    in the server's order and each at most once; all of them when it
    returns normally, and none when the search is refused, in which case
    it returns normally and leaves every file alone. *)
Theorem search_and_process_emails_trace
    codecs get_text parsebytes message_from_bytes server source kw sd ed w :
  let run := search_and_process_emails codecs get_text parsebytes
               message_from_bytes server source kw sd ed w in
  let answer := imap_search server (criteria_of kw sd ed) in
  exists k,
    (k <= length (snd answer))%nat /\
    network (snd run)
    = network w ++ NetSearch (criteria_of kw sd ed)
                   :: map NetFetch (take k (snd answer)) /\
    (fst answer = true -> fst run = inr tt -> k = length (snd answer)) /\
    (fst answer = false ->
     k = O /\ fst run = inr tt /\ files (snd run) = files w).
Proof. apply search_and_process_emails_network. Qed.

(** ** Refused fetches *)

Lemma process_email_refused
    codecs get_text parsebytes message_from_bytes server source num w :
  fst (imap_fetch server num) = false ->
  process_email codecs get_text parsebytes message_from_bytes server source
    num w
  = (inr tt,
     set_stdout (stdout w ++ [py "Failed to fetch email ID: " ++ num
                              ++ py " from " ++ source])
       (set_network (network w ++ [NetFetch num]) w)).
Proof.
  unfold process_email, bind, send, print.
  destruct (imap_fetch server num) as [[|] raw]; [done|]. by intros _.
Qed.

(** X19.  A message the server refuses to hand over is reported and
    passed over: when every fetch is refused, [process_emails] still asks
    for each message, returns normally and changes no file. *)
Theorem refused_fetches_are_skipped
    codecs get_text parsebytes message_from_bytes server source ids w :
  Forall (fun num => fst (imap_fetch server num) = false) ids ->
  let run := process_emails codecs get_text parsebytes message_from_bytes
               server source ids w in
  fst run = inr tt /\
  files (snd run) = files w /\
  network (snd run) = network w ++ map NetFetch ids /\
  length (stdout (snd run)) = (length (stdout w) + length ids)%nat.
Proof.
  cbv zeta. intros H. revert w.
  induction H as [|num rest Hn _ IH]; intros w.
  { simpl. rewrite app_nil_r. repeat split; lia. }
  cbn [process_emails]. unfold bind.
  rewrite (process_email_refused _ _ _ _ _ _ _ _ Hn).
  destruct (IH (set_stdout (stdout w ++ [py "Failed to fetch email ID: " ++ num
                                          ++ py " from " ++ source])
                  (set_network (network w ++ [NetFetch num]) w)))
    as (H1 & H2 & H3 & H4).
  repeat split; [done|by rewrite H2| |].
  - rewrite H3. simpl. by rewrite <- app_assoc.
  - rewrite H4. cbn [stdout set_stdout]. rewrite length_app. simpl. lia.
Qed.

Lemma refused_fetches_are_skipped_witness :
  fst (process_emails sample_codecs (fun html => html)
         (fun _ => accented_body) (fun _ => accented_body) quiet_server
         (py "Gmail") [py "1"; py "2"] ready_world) = inr tt.
Proof.
  apply (refused_fetches_are_skipped sample_codecs (fun html => html)
           (fun _ => accented_body) (fun _ => accented_body) quiet_server
           (py "Gmail") [py "1"; py "2"] ready_world).
  by repeat constructor.
Defined.

(** ** [check_env] and [main] *)

(** X20.  [check_env] answers [True] exactly when the three variables are
    set to values that are not empty (a variable set to the empty string
    counts as missing); it never raises and changes nothing but the
    output, where it names one missing variable. *)
Theorem check_env_true w :
  (fst (check_env w) = inr (Some true) <-> env_ready w = true) /\
  exists out,
    snd (check_env w) = set_stdout (stdout w ++ out) w /\
    length out = (if env_ready w then 0 else 1)%nat /\
    exists r, fst (check_env w) = inr r.
Proof.
  destruct (env_ready w) eqn:Hr.
  - rewrite (check_env_ready w Hr). split; [done|].
    exists []. simpl. split; [|eauto].
    destruct w. unfold set_stdout. simpl. by rewrite app_nil_r.
  - destruct (check_env_not_ready w Hr) as (r & line & -> & Hne).
    split; [split; [by intros [= ->]|done]|].
    exists [line]. simpl. eauto.
Qed.

Lemma check_env_true_witness :
  fst (check_env (World (<[py "VAULT_FILENAME" := []]> (environ ready_world))
                    [] ∅ [] [])) <> inr (Some true).
Proof.
  intros H.
  by apply (proj1 (check_env_true _)) in H.
Defined.

(** X21.  Without the three variables [main] stops at once, whatever its
    arguments: it prints the missing variable and [Ending early], sends
    nothing to the server and touches no file. *)
Theorem main_without_environment
    codecs get_text parsebytes message_from_bytes
    (date : Type) (strptime : list N -> list N + date) strftime server a w :
  env_ready w = false ->
  exists line,
    main codecs get_text parsebytes message_from_bytes date strptime strftime
      server a w
    = (inr tt, set_stdout (stdout w ++ [line; py "Ending early"]) w).
Proof.
  intros Hr. unfold main, bind.
  destruct (check_env_not_ready w Hr) as (r & line & -> & Hne).
  exists line. unfold print.
  destruct r as [[|]|]; try done;
    destruct w; unfold set_stdout; cbn; by rewrite <- app_assoc.
Qed.

Lemma main_without_environment_witness :
  exists line,
    sample_main (Args (py "invoice") None None)
      (World ∅ (py "/home/user") ∅ [] [])
    = (inr tt,
       set_stdout ([] ++ [line; py "Ending early"])
         (World ∅ (py "/home/user") ∅ [] [])).
Proof.
  apply (main_without_environment sample_codecs (fun html => html)
           (fun _ => accented_body) (fun _ => accented_body) unit
           (fun _ => inl (py "bad date")) (fun _ => []) quiet_server
           (Args (py "invoice") None None) (World ∅ (py "/home/user") ∅ [] [])).
  reflexivity.
Defined.

Lemma connect_and_process_unfold
    codecs get_text parsebytes message_from_bytes server a sd ed w :
  connect_and_process codecs get_text parsebytes message_from_bytes server a
    sd ed w
  = let user := environ w !! py "GMAIL_USERNAME" in
    let password := environ w !! py "GMAIL_PASSWORD" in
    let w1 := set_network (network w ++ [NetConnect (py "imap.gmail.com");
                                         NetLogin user password]) w in
    if imap_login_ok server user password then
      match search_and_process_emails codecs get_text parsebytes
              message_from_bytes server (py "Gmail") (keyword a) sd ed
              (set_network (network w1 ++ [NetSelect (py "inbox")]) w1) with
      | (inr _, w2) => (inr tt, set_network (network w2 ++ [NetLogout]) w2)
      | (inl e, w2) => (inl e, w2)
      end
    else (inl IMAP4Error, w1).
Proof.
  cbv zeta. unfold connect_and_process, bind, getenv, send, ret, raise.
  assert (Hw : set_network
                 ((network w ++ [NetConnect (py "imap.gmail.com")])
                  ++ [NetLogin (environ w !! py "GMAIL_USERNAME")
                        (environ w !! py "GMAIL_PASSWORD")])
                 (set_network (network w ++ [NetConnect (py "imap.gmail.com")])
                    w)
               = set_network
                   (network w ++ [NetConnect (py "imap.gmail.com");
                                  NetLogin (environ w !! py "GMAIL_USERNAME")
                                    (environ w !! py "GMAIL_PASSWORD")]) w).
  { destruct w. unfold set_network. cbn [network environ cwd files stdout].
    by rewrite <- app_assoc. }
  cbn [network set_network environ] in *. rewrite Hw.
  destruct (imap_login_ok server (environ w !! py "GMAIL_USERNAME")
              (environ w !! py "GMAIL_PASSWORD")); [|done].
  by destruct (search_and_process_emails _ _ _ _ _ _ _ _ _ _) as [[e|[]] w2].
Qed.

Lemma connect_and_process_trace
    codecs get_text parsebytes message_from_bytes server a sd ed w :
  let run := connect_and_process codecs get_text parsebytes message_from_bytes
               server a sd ed w in
  exists rest,
    network (snd run)
    = network w ++ NetConnect (py "imap.gmail.com")
                   :: NetLogin (environ w !! py "GMAIL_USERNAME")
                               (environ w !! py "GMAIL_PASSWORD") :: rest /\
    (forall e, fst run = inl e -> ~ In NetLogout rest) /\
    (fst run = inr tt -> last rest = Some NetLogout).
Proof.
  cbv zeta. rewrite connect_and_process_unfold. cbv zeta.
  destruct (imap_login_ok server (environ w !! py "GMAIL_USERNAME")
              (environ w !! py "GMAIL_PASSWORD")).
  2:{ exists []. cbn [fst snd network set_network].
      split; [done|]. split; [by intros _ _ []|done]. }
  match goal with
  | |- context [search_and_process_emails _ _ _ _ _ ?src ?kw _ _ ?w0] =>
      destruct (search_and_process_emails_network codecs get_text parsebytes
                  message_from_bytes server src kw sd ed w0)
        as (k & _ & Hn & _);
      destruct (search_and_process_emails codecs get_text parsebytes
                  message_from_bytes server src kw sd ed w0)
        as [[e|[]] w2]
  end; cbn [fst snd] in *.
  - eexists. rewrite Hn. cbn [network set_network].
    rewrite <- !app_assoc. cbn [app]. split; [reflexivity|]. split; [|done].
    intros _ _ [H|[H|H]]; try done.
    apply in_map_iff in H as (x & Hx & _). done.
  - eexists. cbn [network set_network]. rewrite Hn. cbn [network set_network].
    rewrite <- !app_assoc. cbn [app]. split; [reflexivity|].
    split; [done|]. intros _.
    rewrite !app_comm_cons. apply last_snoc.
Qed.

(** X22.  Whatever [main] sends starts with the connection to
    [imap.gmail.com] and the login under the credentials of the
    environment; it logs out exactly when it returns normally after that:
    a run ended by an exception never logs out. *)
Theorem main_trace
    codecs get_text parsebytes message_from_bytes
    (date : Type) (strptime : list N -> list N + date) strftime server a w :
  let run := main codecs get_text parsebytes message_from_bytes date strptime
               strftime server a w in
  exists sent,
    network (snd run) = network w ++ sent /\
    (sent = [] \/
     exists rest,
       sent = NetConnect (py "imap.gmail.com")
              :: NetLogin (environ w !! py "GMAIL_USERNAME")
                          (environ w !! py "GMAIL_PASSWORD") :: rest) /\
    (forall e, fst run = inl e -> ~ In NetLogout sent) /\
    (fst run = inr tt -> sent = [] \/ last sent = Some NetLogout).
Proof.
  cbv zeta.
  assert (Hquiet : forall line : list N,
    exists sent,
      network (snd (print line w)) = network w ++ sent /\
      (sent = [] \/
       exists rest,
         sent = NetConnect (py "imap.gmail.com")
                :: NetLogin (environ w !! py "GMAIL_USERNAME")
                            (environ w !! py "GMAIL_PASSWORD") :: rest) /\
      (forall e, fst (print line w) = inl e -> ~ In NetLogout sent) /\
      (fst (print line w) = inr tt -> sent = [] \/ last sent = Some NetLogout)).
  { intros line. exists []. cbn. rewrite app_nil_r. repeat split; auto. }
  assert (Hgo : forall sd ed,
    exists sent,
      network (snd (connect_and_process codecs get_text parsebytes
                      message_from_bytes server a sd ed w))
      = network w ++ sent /\
      (sent = [] \/
       exists rest,
         sent = NetConnect (py "imap.gmail.com")
                :: NetLogin (environ w !! py "GMAIL_USERNAME")
                            (environ w !! py "GMAIL_PASSWORD") :: rest) /\
      (forall e, fst (connect_and_process codecs get_text parsebytes
                        message_from_bytes server a sd ed w) = inl e ->
                 ~ In NetLogout sent) /\
      (fst (connect_and_process codecs get_text parsebytes
              message_from_bytes server a sd ed w) = inr tt ->
       sent = [] \/ last sent = Some NetLogout)).
  { intros sd ed.
    destruct (connect_and_process_trace codecs get_text parsebytes
                message_from_bytes server a sd ed w) as (rest & Hn & He & Hok).
    eexists. split; [exact Hn|]. split; [right; eauto|]. split.
    - intros e H [?|[?|Hin]]; try done. by apply (He e H).
    - intros H. right. specialize (Hok H).
      destruct rest as [|x rest]; [done|]. exact Hok. }
  unfold main, bind.
  destruct (env_ready w) eqn:Hr.
  - rewrite (check_env_ready w Hr).
    destruct (truthy (startdate a) && truthy (enddate a)).
    + destruct (strptime (default [] (startdate a))); [apply Hquiet|].
      destruct (strptime (default [] (enddate a))); [apply Hquiet|apply Hgo].
    + destruct (truthy (startdate a) || truthy (enddate a));
        [apply Hquiet|apply Hgo].
  - destruct (check_env_not_ready w Hr) as (r & line & -> & Hne).
    exists []. rewrite app_nil_r.
    destruct r as [[|]|]; try done; cbn; repeat split; auto.
Qed.
